(** * x402 payment contracts: EIP712Payment and SubscriptionManager

    A shallow embedding of the two Solidity contracts of the repository,
    [contracts/src/EIP712Payment.sol] and the subscription manager, and the
    properties of the payment-authorization and billing engine proved about
    them.

    Conventions of the embedding.
    - [uint256], [address], [bytes32] and [bool] values are integers of [Z];
      Solidity 0.8 arithmetic is checked, so an addition that leaves the
      256-bit range fails with [Panic 0x11] instead of wrapping.
    - A [mapping] is a [gmap] read with the Solidity default (all-zero value)
      for absent keys.
    - A call returns [Ok v] or [Err f]; a failed call leaves the storage as it
      was (the transaction reverts).
    - [subscribe] sends value to the plan's payment recipient before it
      writes; what the recipient does with the call, calls back into the
      contract included, is an argument of the function, and transactions
      carry the calls nested in them.
    - [keccak256], OpenZeppelin's [_hashTypedDataV4] and [ECDSA.recover] are
      not part of the repository; they are the fields of the class
      [Primitives].
    - The recurring charge [processPayment] is not in the contract; it is
      modelled from the specification in [SubscriptionLedger].
    - The API client of the front end, [frontend/api-client.js], has its
      clock and its network as arguments: [Date.now()] is a time in
      milliseconds given to each call, the network is a function from the
      number of the attempt to its response, and the [null] and the
      truthiness of JavaScript values are parameters of the cache and of
      the client. *)

From Stdlib Require Import ZArith List Bool Lia.
From stdpp Require Import base gmap strings list.
Import ListNotations.

Open Scope Z_scope.

(** ** EVM values and failures *)

Abbreviation uint256 := Z.
Abbreviation address := Z.
Abbreviation bytes32 := Z.
Abbreviation bytes := (list Z).

Definition MAX_UINT256 : uint256 := 2 ^ 256 - 1.

(** [address(0)]: the native-token designator and the default of an unset
    [address] slot. *)
Definition address0 : address := 0.

Inductive Failure : Type :=
| Revert (reason : string)   (* require(cond, reason) failed *)
| Panic (code : Z).          (* compiler-inserted check, 0x11 = overflow *)

Inductive result (A : Type) : Type :=
| Ok (a : A)
| Err (f : Failure).
Arguments Ok {A} a.
Arguments Err {A} f.

Definition bind {A B : Type} (m : result A) (k : A -> result B) : result B :=
  match m with
  | Ok a => k a
  | Err f => Err f
  end.

Notation "'let*' x ':=' m 'in' k" := (bind m (fun x => k))
  (at level 10, x pattern, m at level 100, k at level 200).

Definition require (cond : bool) (reason : string) : result unit :=
  if cond then Ok tt else Err (Revert reason).

(** Checked [a + b] on [uint256]. *)
Definition checked_add (a b : uint256) : result uint256 :=
  if a + b <=? MAX_UINT256 then Ok (a + b) else Err (Panic 17).

(** The failure categories of the specification, as the revert reasons the
    contracts use for them. *)
Definition DeadlineExpired : Failure := Revert "Signature expired".
Definition NonceMismatch : Failure := Revert "Invalid nonce".
Definition PlanInactive : Failure := Revert "Plan not active".
Definition AlreadySubscribed : Failure := Revert "Already subscribed".
Definition InsufficientPayment : Failure := Revert "Insufficient payment".

(** ** Byte encodings *)

(** The [n]-byte big-endian representation of [v] (of [v mod 256^n]). *)
Fixpoint be_bytes (n : nat) (v : Z) : bytes :=
  match n with
  | O => []
  | S n' => be_bytes n' (v / 256) ++ [v mod 256]
  end.

Definition from_be (bs : bytes) : Z :=
  fold_left (fun acc b => acc * 256 + b) bs 0.

Definition bytes_of_string (s : string) : bytes :=
  map (fun c => Z.of_N (Ascii.N_of_ascii c)) (String.list_ascii_of_string s).

Definition Z_of_bool (b : bool) : Z := if b then 1 else 0.

(** [abi.encode] of values of static type: one 32-byte word each. *)
Definition abi_encode (words : list Z) : bytes :=
  concat (map (be_bytes 32) words).

(** [abi.encodePacked(address, uint256, uint256)]: 20 + 32 + 32 bytes. *)
Definition abi_encodePacked_address_uint256_uint256 (a : address) (x y : uint256) : bytes :=
  be_bytes 20 a ++ be_bytes 32 x ++ be_bytes 32 y.

(** ** Primitives from outside the repository *)

Class Primitives : Type := {
  (** the EVM's [keccak256] on a byte string *)
  keccak256 : bytes -> bytes32;
  (** OpenZeppelin [EIP712._hashTypedDataV4], for the domain built by
      [EIP712("SKALE Payment Tool", "1")] at the deployment's chain id and
      address *)
  _hashTypedDataV4 : bytes32 -> bytes32;
  (** OpenZeppelin [ECDSA.recover(hash, signature)]; it reverts on a
      malformed signature *)
  recover : bytes32 -> bytes -> result address;
  (** a [bytes32] is a 256-bit value *)
  keccak256_range : forall bs, 0 <= keccak256 bs < 2 ^ 256;
}.

(** ** contract EIP712Payment *)

Module EIP712Payment.
Section Contract.
Context {prim : Primitives}.

Definition PAYMENT_AUTHORIZATION_TYPE : string :=
  "PaymentAuthorization(address payer,address token,uint256 amount,uint256 deadline,uint256 nonce,string action)".
Definition SUBSCRIPTION_AUTHORIZATION_TYPE : string :=
  "SubscriptionAuthorization(bytes32 planId,address subscriber,uint256 amount,uint256 deadline,uint256 nonce,bool autoRenew)".
Definition RECURRING_PAYMENT_TYPE : string :=
  "RecurringPayment(bytes32 planId,address subscriber,uint256 amount,uint256 paymentNumber,uint256 deadline,uint256 nonce)".

Definition PAYMENT_AUTHORIZATION_TYPEHASH : bytes32 :=
  keccak256 (bytes_of_string PAYMENT_AUTHORIZATION_TYPE).
Definition SUBSCRIPTION_AUTHORIZATION_TYPEHASH : bytes32 :=
  keccak256 (bytes_of_string SUBSCRIPTION_AUTHORIZATION_TYPE).
Definition RECURRING_PAYMENT_TYPEHASH : bytes32 :=
  keccak256 (bytes_of_string RECURRING_PAYMENT_TYPE).

(** Storage: [mapping(address => uint256) public nonces]. *)
Record State : Type := { nonces : gmap address uint256 }.

Definition init : State := {| nonces := ∅ |}.

Definition nonce_of (s : State) (user : address) : uint256 :=
  default 0 (nonces s !! user).

Inductive Event : Type :=
| NonceIncremented (user : address) (newNonce : uint256).

(** The preimages of the three struct hashes. *)
Definition paymentAuthorizationEncoding
    (payer token : address) (amount deadline nonce : uint256) (action : string) : bytes :=
  abi_encode [PAYMENT_AUTHORIZATION_TYPEHASH; payer; token; amount; deadline; nonce;
              keccak256 (bytes_of_string action)].

Definition subscriptionAuthorizationEncoding
    (planId : bytes32) (subscriber : address) (amount deadline nonce : uint256)
    (autoRenew : bool) : bytes :=
  abi_encode [SUBSCRIPTION_AUTHORIZATION_TYPEHASH; planId; subscriber; amount; deadline; nonce;
              Z_of_bool autoRenew].

Definition recurringPaymentEncoding
    (planId : bytes32) (subscriber : address)
    (amount paymentNumber deadline nonce : uint256) : bytes :=
  abi_encode [RECURRING_PAYMENT_TYPEHASH; planId; subscriber; amount; paymentNumber; deadline;
              nonce].

Definition buildPaymentAuthorizationHash
    (payer token : address) (amount deadline nonce : uint256) (action : string) : bytes32 :=
  keccak256 (paymentAuthorizationEncoding payer token amount deadline nonce action).

Definition buildSubscriptionAuthorizationHash
    (planId : bytes32) (subscriber : address) (amount deadline nonce : uint256)
    (autoRenew : bool) : bytes32 :=
  keccak256 (subscriptionAuthorizationEncoding planId subscriber amount deadline nonce autoRenew).

Definition getTypedDataHash (structHash : bytes32) : bytes32 := _hashTypedDataV4 structHash.

(** [block_timestamp] is [block.timestamp] of the call. All three
    verifications are [view]: they read [nonces] and write nothing. *)
Definition verifyPaymentAuthorization (s : State) (block_timestamp : uint256)
    (payer token : address) (amount deadline nonce : uint256) (action : string)
    (signature : bytes) : result bool :=
  let* _ := require (block_timestamp <=? deadline) "Signature expired" in
  let* _ := require (nonce =? nonce_of s payer) "Invalid nonce" in
  let structHash :=
    keccak256 (abi_encode [PAYMENT_AUTHORIZATION_TYPEHASH; payer; token; amount; deadline;
                           nonce; keccak256 (bytes_of_string action)]) in
  let hash := _hashTypedDataV4 structHash in
  let* signer := recover hash signature in
  Ok (signer =? payer).

Definition verifySubscriptionAuthorization (s : State) (block_timestamp : uint256)
    (planId : bytes32) (subscriber : address) (amount deadline nonce : uint256) (autoRenew : bool)
    (signature : bytes) : result bool :=
  let* _ := require (block_timestamp <=? deadline) "Signature expired" in
  let* _ := require (nonce =? nonce_of s subscriber) "Invalid nonce" in
  let structHash :=
    keccak256 (abi_encode [SUBSCRIPTION_AUTHORIZATION_TYPEHASH; planId; subscriber; amount;
                           deadline; nonce; Z_of_bool autoRenew]) in
  let hash := _hashTypedDataV4 structHash in
  let* signer := recover hash signature in
  Ok (signer =? subscriber).

Definition verifyRecurringPayment (s : State) (block_timestamp : uint256)
    (planId : bytes32) (subscriber : address) (amount paymentNumber deadline nonce : uint256)
    (signature : bytes) : result bool :=
  let* _ := require (block_timestamp <=? deadline) "Signature expired" in
  let* _ := require (nonce =? nonce_of s subscriber) "Invalid nonce" in
  let structHash :=
    keccak256 (abi_encode [RECURRING_PAYMENT_TYPEHASH; planId; subscriber; amount;
                           paymentNumber; deadline; nonce]) in
  let hash := _hashTypedDataV4 structHash in
  let* signer := recover hash signature in
  Ok (signer =? subscriber).

(** [nonces[user]++] followed by the event carrying the new value. *)
Definition _incrementNonce (user : address) (s : State) : result (State * list Event) :=
  let* n := checked_add (nonce_of s user) 1 in
  let s' := {| nonces := <[user := n]> (nonces s) |} in
  Ok (s', [NonceIncremented user (nonce_of s' user)]).

Definition getNonce (s : State) (user : address) : uint256 := nonce_of s user.

(** *** Calls and runs *)

(** The signed intents of the three action classes. *)
Inductive Intent : Type :=
| PaymentAuthorization (payer token : address) (amount deadline nonce : uint256) (action : string)
| SubscriptionAuthorization (planId : bytes32) (subscriber : address)
    (amount deadline nonce : uint256)
    (autoRenew : bool)
| RecurringPayment (planId : bytes32) (subscriber : address)
    (amount paymentNumber deadline nonce : uint256).

Inductive IntentClass : Type := ClsPayment | ClsSubscription | ClsRecurring.

Definition intent_class (i : Intent) : IntentClass :=
  match i with
  | PaymentAuthorization _ _ _ _ _ _ => ClsPayment
  | SubscriptionAuthorization _ _ _ _ _ _ => ClsSubscription
  | RecurringPayment _ _ _ _ _ _ => ClsRecurring
  end.

(** The address the verification compares the recovered signer with. *)
Definition intent_signer (i : Intent) : address :=
  match i with
  | PaymentAuthorization payer _ _ _ _ _ => payer
  | SubscriptionAuthorization _ subscriber _ _ _ _ => subscriber
  | RecurringPayment _ subscriber _ _ _ _ => subscriber
  end.

Definition intent_typehash (i : Intent) : bytes32 :=
  match i with
  | PaymentAuthorization _ _ _ _ _ _ => PAYMENT_AUTHORIZATION_TYPEHASH
  | SubscriptionAuthorization _ _ _ _ _ _ => SUBSCRIPTION_AUTHORIZATION_TYPEHASH
  | RecurringPayment _ _ _ _ _ _ => RECURRING_PAYMENT_TYPEHASH
  end.

Definition intent_type_string (c : IntentClass) : string :=
  match c with
  | ClsPayment => PAYMENT_AUTHORIZATION_TYPE
  | ClsSubscription => SUBSCRIPTION_AUTHORIZATION_TYPE
  | ClsRecurring => RECURRING_PAYMENT_TYPE
  end.

(** The bytes hashed into the struct hash of an intent. *)
Definition intent_encoding (i : Intent) : bytes :=
  match i with
  | PaymentAuthorization payer token amount deadline nonce action =>
      paymentAuthorizationEncoding payer token amount deadline nonce action
  | SubscriptionAuthorization planId subscriber amount deadline nonce autoRenew =>
      subscriptionAuthorizationEncoding planId subscriber amount deadline nonce autoRenew
  | RecurringPayment planId subscriber amount paymentNumber deadline nonce =>
      recurringPaymentEncoding planId subscriber amount paymentNumber deadline nonce
  end.

(** The digest the signer of an intent signs. *)
Definition intent_digest (i : Intent) : bytes32 :=
  _hashTypedDataV4 (keccak256 (intent_encoding i)).

(** The verification function of the intent's class. *)
Definition verify (s : State) (block_timestamp : uint256) (i : Intent) (signature : bytes)
    : result bool :=
  match i with
  | PaymentAuthorization payer token amount deadline nonce action =>
      verifyPaymentAuthorization s block_timestamp payer token amount deadline nonce action
        signature
  | SubscriptionAuthorization planId subscriber amount deadline nonce autoRenew =>
      verifySubscriptionAuthorization s block_timestamp planId subscriber amount deadline
        nonce autoRenew signature
  | RecurringPayment planId subscriber amount paymentNumber deadline nonce =>
      verifyRecurringPayment s block_timestamp planId subscriber amount paymentNumber
        deadline nonce signature
  end.

(** What the rejection of a replay across action classes rests on, for the
    values at hand: [keccak256] does not collide on two given byte strings,
    [_hashTypedDataV4] does not collide on two given struct hashes, and a
    signature that recovers to one signer under two digests is a signature
    of a single digest. *)
Definition collision_free (x y : bytes) : Prop :=
  keccak256 x = keccak256 y -> x = y.

Definition typed_hash_collision_free (h h' : bytes32) : Prop :=
  _hashTypedDataV4 h = _hashTypedDataV4 h' -> h = h'.

Definition signature_binds (signature : bytes) (d d' : bytes32) : Prop :=
  forall signer, recover d signature = Ok signer -> recover d' signature = Ok signer -> d = d'.

(** One operation on the contract: a verification, a nonce read, or the
    internal increment run by the contract that admits an action. *)
Inductive Op : Type :=
| OpVerify (i : Intent) (signature : bytes)
| OpGetNonce (user : address)
| OpIncrementNonce (user : address).

Inductive Reply : Type :=
| RBool (b : bool)
| RUint (n : uint256)
| RUnit.

(** An operation executed in a block with the given timestamp: the reply
    and the storage afterwards (unchanged when the call fails). *)
Definition step (block_timestamp : uint256) (op : Op) (s : State) : result Reply * State :=
  match op with
  | OpVerify i signature =>
      (bind (verify s block_timestamp i signature) (fun b => Ok (RBool b)), s)
  | OpGetNonce user => (Ok (RUint (getNonce s user)), s)
  | OpIncrementNonce user =>
      match _incrementNonce user s with
      | Ok (s', _) => (Ok RUnit, s')
      | Err f => (Err f, s)
      end
  end.

(** A run: operations with the timestamps of their blocks. *)
Fixpoint run (ops : list (uint256 * Op)) (s : State) : State :=
  match ops with
  | [] => s
  | (t, op) :: ops' => run ops' (snd (step t op s))
  end.

(** The nonce and the deadline an intent presents. *)
Definition intent_nonce (i : Intent) : uint256 :=
  match i with
  | PaymentAuthorization _ _ _ _ nonce _ => nonce
  | SubscriptionAuthorization _ _ _ _ nonce _ => nonce
  | RecurringPayment _ _ _ _ _ nonce => nonce
  end.

Definition intent_deadline (i : Intent) : uint256 :=
  match i with
  | PaymentAuthorization _ _ _ deadline _ _ => deadline
  | SubscriptionAuthorization _ _ _ deadline _ _ => deadline
  | RecurringPayment _ _ _ _ deadline _ => deadline
  end.

(** The number of [_incrementNonce(user)] among the operations of a run. *)
Fixpoint increments_of (user : address) (ops : list (uint256 * Op)) : nat :=
  match ops with
  | [] => O
  | (_, OpIncrementNonce who) :: ops' =>
      if decide (who = user) then S (increments_of user ops') else increments_of user ops'
  | _ :: ops' => increments_of user ops'
  end.

(** A value that fits a 32-byte word. *)
Definition is_word (v : Z) : Prop := 0 <= v < 2 ^ 256.

End Contract.
End EIP712Payment.

(** ** contract SubscriptionManager *)

Module SubscriptionPlan.
Record t : Type := mk {
  token : address;
  amount : uint256;
  interval : uint256;
  duration : uint256;
  gracePeriod : uint256;
  active : bool;
  creator : address;
  paymentRecipient : address;
  apiUrl : string;
  totalSubscribers : uint256;
}.

(** The value of an unset [plans] slot. *)
Definition zero : t := mk 0 0 0 0 0 false 0 0 EmptyString 0.

Definition set_totalSubscribers (n : uint256) (p : t) : t :=
  mk (token p) (amount p) (interval p) (duration p) (gracePeriod p) (active p)
     (creator p) (paymentRecipient p) (apiUrl p) n.
End SubscriptionPlan.

Module Subscription.
Record t : Type := mk {
  subscriber : address;
  startTime : uint256;
  nextPaymentDue : uint256;
  endTime : uint256;
  totalPaid : uint256;
  missedPayments : uint256;
  active : bool;
  autoRenew : bool;
}.

(** The value of an unset [subscriptions] slot. *)
Definition zero : t := mk 0 0 0 0 0 0 false false.
End Subscription.

Module SubscriptionManager.

Record State : Type := {
  plans : gmap bytes32 SubscriptionPlan.t;
  subscriptions : gmap (bytes32 * address) Subscription.t;
  nonces : gmap address uint256;
  allPlans : list bytes32;
  planCounter : uint256;
}.

(** Storage after the (empty) constructor. *)
Definition init : State :=
  {| plans := ∅; subscriptions := ∅; nonces := ∅; allPlans := []; planCounter := 0 |}.

(** [plans[planId]] and [subscriptions[planId][who]]. *)
Definition plan_of (s : State) (planId : bytes32) : SubscriptionPlan.t :=
  default SubscriptionPlan.zero (plans s !! planId).

Definition subscription_of (s : State) (planId : bytes32) (who : address) : Subscription.t :=
  default Subscription.zero (subscriptions s !! (planId, who)).

Definition set_plan (planId : bytes32) (p : SubscriptionPlan.t) (s : State) : State :=
  {| plans := <[planId := p]> (plans s); subscriptions := subscriptions s;
     nonces := nonces s; allPlans := allPlans s; planCounter := planCounter s |}.

Definition set_subscription (planId : bytes32) (who : address) (sub : Subscription.t)
    (s : State) : State :=
  {| plans := plans s; subscriptions := <[(planId, who) := sub]> (subscriptions s);
     nonces := nonces s; allPlans := allPlans s; planCounter := planCounter s |}.

(** What a call leaves behind: the events it emits and the value it sends
    out. *)
Inductive Log : Type :=
| PlanCreated (planId : bytes32) (creator : address) (token : address) (amount : uint256)
| SubscriptionCreated (planId : bytes32) (subscriber : address)
| PaymentProcessed (planId : bytes32) (subscriber : address) (amount : uint256)
| ValueSent (recipient : address) (value : uint256).

Definition is_ValueSent (l : Log) : bool :=
  match l with
  | ValueSent _ _ => true
  | _ => false
  end.

Section Contract.
Context {prim : Primitives}.

Definition createPlan (block_timestamp : uint256) (msg_sender : address)
    (token : address) (amount interval duration gracePeriod : uint256) (apiUrl : string)
    (s : State) : result (bytes32 * State * list Log) :=
  let* _ := require (0 <? amount) "Amount must be > 0" in
  let* _ := require (0 <? interval) "Interval must be > 0" in
  let* counter := checked_add (planCounter s) 1 in
  let planId :=
    keccak256 (abi_encodePacked_address_uint256_uint256 msg_sender counter block_timestamp) in
  let plan :=
    {| SubscriptionPlan.token := token;
       SubscriptionPlan.amount := amount;
       SubscriptionPlan.interval := interval;
       SubscriptionPlan.duration := duration;
       SubscriptionPlan.gracePeriod := gracePeriod;
       SubscriptionPlan.active := true;
       SubscriptionPlan.creator := msg_sender;
       SubscriptionPlan.paymentRecipient := msg_sender;
       SubscriptionPlan.apiUrl := apiUrl;
       SubscriptionPlan.totalSubscribers := 0 |} in
  Ok (planId,
      {| plans := <[planId := plan]> (plans s); subscriptions := subscriptions s;
         nonces := nonces s; allPlans := allPlans s ++ [planId]; planCounter := counter |},
      [PlanCreated planId msg_sender token amount]).

(** [call_value recipient value s] stands for [recipient.call{value: value}]
    with empty calldata, made while the storage is [s]: [None] when the call
    reports failure, and otherwise the storage and the
    log left by whatever calls the recipient made back into the contract
    before returning ([(s, [])] for a recipient that makes none). *)
Definition subscribe (call_value : address -> uint256 -> State -> option (State * list Log))
    (block_timestamp : uint256) (msg_sender : address) (msg_value : uint256)
    (planId : bytes32) (autoRenew : bool) (s : State) : result (State * list Log) :=
  let plan := plan_of s planId in
  let* _ := require (SubscriptionPlan.active plan) "Plan not active" in
  let* _ := require (Subscription.subscriber (subscription_of s planId msg_sender) =? address0)
              "Already subscribed" in
  let* paid :=
    if SubscriptionPlan.token plan =? address0 then
      let* _ := require (SubscriptionPlan.amount plan <=? msg_value) "Insufficient payment" in
      match call_value (SubscriptionPlan.paymentRecipient plan)
              (SubscriptionPlan.amount plan) s with
      | Some (s1, log1) =>
          Ok (s1, ValueSent (SubscriptionPlan.paymentRecipient plan)
                    (SubscriptionPlan.amount plan) :: log1)
      | None => Err (Revert "Payment failed")
      end
    else Ok (s, []) in
  let startTime := block_timestamp in
  let* due := checked_add startTime (SubscriptionPlan.interval plan) in
  let* ends := checked_add startTime (SubscriptionPlan.duration plan) in
  let s2 :=
    set_subscription planId msg_sender
      {| Subscription.subscriber := msg_sender;
         Subscription.startTime := startTime;
         Subscription.nextPaymentDue := due;
         Subscription.endTime := ends;
         Subscription.totalPaid := SubscriptionPlan.amount plan;
         Subscription.missedPayments := 0;
         Subscription.active := true;
         Subscription.autoRenew := autoRenew |} (fst paid) in
  let* n := checked_add (SubscriptionPlan.totalSubscribers (plan_of s2 planId)) 1 in
  let s3 := set_plan planId (SubscriptionPlan.set_totalSubscribers n (plan_of s2 planId)) s2 in
  Ok (s3, snd paid ++ [SubscriptionCreated planId msg_sender;
                       PaymentProcessed planId msg_sender (SubscriptionPlan.amount plan)]).

(** The record [subscribe] writes for [msg_sender] when the plan it read is
    [plan] and nothing overflows. *)
Definition new_subscription (block_timestamp : uint256) (msg_sender : address)
    (autoRenew : bool) (plan : SubscriptionPlan.t) : Subscription.t :=
  {| Subscription.subscriber := msg_sender;
     Subscription.startTime := block_timestamp;
     Subscription.nextPaymentDue := block_timestamp + SubscriptionPlan.interval plan;
     Subscription.endTime := block_timestamp + SubscriptionPlan.duration plan;
     Subscription.totalPaid := SubscriptionPlan.amount plan;
     Subscription.missedPayments := 0;
     Subscription.active := true;
     Subscription.autoRenew := autoRenew |}.

(** The storage at the moment [subscribe] writes: the storage of the call,
    unless the plan is paid in the native token and the recipient has called
    back into the contract. *)
Definition storage_at_write
    (call_value : address -> uint256 -> State -> option (State * list Log))
    (planId : bytes32) (s : State) : State :=
  let plan := plan_of s planId in
  if SubscriptionPlan.token plan =? address0 then
    match call_value (SubscriptionPlan.paymentRecipient plan)
            (SubscriptionPlan.amount plan) s with
    | Some (s1, _) => s1
    | None => s
    end
  else s.

(** The duplicate check of [subscribe] fails for [(planId, who)]. *)
Definition blocked (planId : bytes32) (who : address) (s : State) : Prop :=
  Subscription.subscriber (subscription_of s planId who) <> address0.

Definition getPlan (s : State) (planId : bytes32) : SubscriptionPlan.t := plan_of s planId.

Definition getSubscription (s : State) (planId : bytes32) (subscriber : address)
    : Subscription.t :=
  subscription_of s planId subscriber.

Definition getAllPlans (s : State) : list bytes32 := allPlans s.

Definition getNonce (s : State) (user : address) : uint256 := default 0 (nonces s !! user).

(** A recipient that accepts the value and makes no call back. *)
Definition plain_recipient (_ : address) (_ : uint256) (s : State)
    : option (State * list Log) :=
  Some (s, []).

(** *** Transactions *)

(** A state-changing call with its [msg.sender] and, for [subscribe], its
    [msg.value] and the behaviour of the plan's payment recipient when it
    receives the value: it makes the call fail, or it accepts after making
    [reentrant] calls of its own into the contract (calls that fail are
    rolled back one by one and the recipient carries on). *)
Inductive Tx : Type :=
| TxCreatePlan (msg_sender : address) (token : address)
    (amount interval duration gracePeriod : uint256) (apiUrl : string)
| TxSubscribe (msg_sender : address) (msg_value : uint256) (planId : bytes32)
    (autoRenew : bool) (recipient : Callee)
with Callee : Type :=
| Refuses
| Accepts (reentrant : list Tx).

Fixpoint exec (block_timestamp : uint256) (tx : Tx) (s : State) {struct tx}
    : result (State * list Log) :=
  match tx with
  | TxCreatePlan msg_sender token amount interval duration gracePeriod apiUrl =>
      let* r := createPlan block_timestamp msg_sender token amount interval duration
                  gracePeriod apiUrl s in
      Ok (snd (fst r), snd r)
  | TxSubscribe msg_sender msg_value planId autoRenew recipient =>
      subscribe (fun _ _ s0 => callee block_timestamp recipient s0)
        block_timestamp msg_sender msg_value planId autoRenew s
  end
with callee (block_timestamp : uint256) (c : Callee) (s : State) {struct c}
    : option (State * list Log) :=
  match c with
  | Refuses => None
  | Accepts reentrant =>
      Some ((fix each (txs : list Tx) (s0 : State) : State * list Log :=
               match txs with
               | [] => (s0, [])
               | tx :: txs' =>
                   match exec block_timestamp tx s0 with
                   | Ok (s1, log1) =>
                       let r := each txs' s1 in (fst r, log1 ++ snd r)
                   | Err _ => each txs' s0
                   end
               end) reentrant s)
  end.

(** The calls a recipient makes back, one after the other ([callee] runs
    exactly these): a call that fails changes nothing. *)
Fixpoint reentrant_calls (block_timestamp : uint256) (txs : list Tx) (s : State)
    : State * list Log :=
  match txs with
  | [] => (s, [])
  | tx :: txs' =>
      match exec block_timestamp tx s with
      | Ok (s1, log1) =>
          let r := reentrant_calls block_timestamp txs' s1 in (fst r, log1 ++ snd r)
      | Err _ => reentrant_calls block_timestamp txs' s
      end
  end.

(** The storage after a transaction, reverted when it fails. *)
Definition after (block_timestamp : uint256) (tx : Tx) (s : State) : State :=
  match exec block_timestamp tx s with
  | Ok (s', _) => s'
  | Err _ => s
  end.

(** A history: transactions with the timestamps of their blocks. *)
Fixpoint run (txs : list (uint256 * Tx)) (s : State) : State :=
  match txs with
  | [] => s
  | (t, tx) :: txs' => run txs' (after t tx s)
  end.

End Contract.

(** *** Induction on transactions *)

Section TxInduction.
Variable P : Tx -> Prop.
Variable Q : Callee -> Prop.
Hypothesis P_createPlan :
  forall msg_sender token amount interval duration gracePeriod apiUrl,
    P (TxCreatePlan msg_sender token amount interval duration gracePeriod apiUrl).
Hypothesis P_subscribe :
  forall msg_sender msg_value planId autoRenew recipient,
    Q recipient -> P (TxSubscribe msg_sender msg_value planId autoRenew recipient).
Hypothesis Q_refuses : Q Refuses.
Hypothesis Q_accepts : forall reentrant, Forall P reentrant -> Q (Accepts reentrant).

(** Induction on a transaction with the calls nested in it. *)
Fixpoint Tx_nested_ind (tx : Tx) : P tx :=
  match tx with
  | TxCreatePlan msg_sender token amount interval duration gracePeriod apiUrl =>
      P_createPlan msg_sender token amount interval duration gracePeriod apiUrl
  | TxSubscribe msg_sender msg_value planId autoRenew recipient =>
      P_subscribe msg_sender msg_value planId autoRenew recipient (Callee_nested_ind recipient)
  end
with Callee_nested_ind (c : Callee) : Q c :=
  match c with
  | Refuses => Q_refuses
  | Accepts reentrant =>
      Q_accepts reentrant
        ((fix all (txs : list Tx) : Forall P txs :=
            match txs with
            | [] => @Stdlib.Lists.List.Forall_nil Tx P
            | tx :: txs' =>
                @Stdlib.Lists.List.Forall_cons Tx P tx txs' (Tx_nested_ind tx) (all txs')
            end) reentrant)
  end.
End TxInduction.

(** *** Well-formed storage *)

(** A plan as [createPlan] stores it: active, with a positive amount and
    interval, paid to its creator. *)
Definition plan_ok (p : SubscriptionPlan.t) : Prop :=
  SubscriptionPlan.active p = true /\
  0 < SubscriptionPlan.amount p /\
  0 < SubscriptionPlan.interval p /\
  SubscriptionPlan.paymentRecipient p = SubscriptionPlan.creator p.

(** A subscription as [subscribe] stores it for [who]. *)
Definition subscription_ok (who : address) (r : Subscription.t) : Prop :=
  Subscription.subscriber r = who /\
  Subscription.active r = true /\
  Subscription.missedPayments r = 0 /\
  Subscription.startTime r < Subscription.nextPaymentDue r /\
  0 < Subscription.totalPaid r.

(** The plans stored are those listed in [allPlans], each as [createPlan]
    stores it; every record with a subscriber is as [subscribe] stores it;
    [planCounter] is the number of plans listed. *)
Definition wellformed (s : State) : Prop :=
  (forall planId, planId ∈ allPlans s -> plan_ok (plan_of s planId)) /\
  (forall planId, planId ∉ allPlans s -> plans s !! planId = None) /\
  (forall planId who, blocked planId who s ->
                      subscription_ok who (subscription_of s planId who)) /\
  planCounter s = Z.of_nat (length (allPlans s)).

(** How a later storage relates to an earlier one. *)
Definition extends (s s' : State) : Prop :=
  (wellformed s -> wellformed s') /\
  (exists more, allPlans s' = allPlans s ++ more) /\
  nonces s' = nonces s /\
  (forall planId who, blocked planId who s ->
                      subscription_of s' planId who = subscription_of s planId who).

End SubscriptionManager.

(** ** The recurring charge of the subscription ledger *)

Module SubscriptionLedger.
Import SubscriptionManager.

(** Modelled from the spec: the PaymentRecord of section 3, which the
    contract does not have: owning subscription, amount, time, settlement
    reference and type tag (initial, recurring or renewal). *)
Inductive PaymentType : Type := Initial | Recurring | Renewal.

Record PaymentRecord : Type := {
  record_planId : bytes32;
  record_subscriber : address;
  record_amount : uint256;
  record_timestamp : uint256;
  record_settlementRef : string;
  record_type : PaymentType;
}.

(** Modelled from the spec: the outcomes of [processPayment], with the
    failure categories of section 7 that apply to it. *)
Inductive Rejection : Type :=
| SubscriptionNotFound
| NotYetDue
| GracePeriodExceeded
| SubscriptionExpired.

Inductive Outcome : Type :=
| Charged (record : PaymentRecord)
| Rejected (why : Rejection).

Definition is_Charged (o : Outcome) : bool :=
  match o with
  | Charged _ => true
  | Rejected _ => false
  end.

(** Modelled from the spec: the subscription after an admitted charge of
    [processPayment], which the contract does not define. The due date moves
    by one interval from the scheduled date, the missed-payment streak is
    reset and the amount is added to the cumulative total. *)
Definition charge (plan : SubscriptionPlan.t) (ends : uint256) (sub : Subscription.t)
    : Subscription.t :=
  {| Subscription.subscriber := Subscription.subscriber sub;
     Subscription.startTime := Subscription.startTime sub;
     Subscription.nextPaymentDue :=
       Subscription.nextPaymentDue sub + SubscriptionPlan.interval plan;
     Subscription.endTime := ends;
     Subscription.totalPaid := Subscription.totalPaid sub + SubscriptionPlan.amount plan;
     Subscription.missedPayments := 0;
     Subscription.active := Subscription.active sub;
     Subscription.autoRenew := Subscription.autoRenew sub |}.

(** Modelled from the spec: the subscription after a [processPayment] that
    came after grace, one more missed payment. *)
Definition miss (sub : Subscription.t) : Subscription.t :=
  {| Subscription.subscriber := Subscription.subscriber sub;
     Subscription.startTime := Subscription.startTime sub;
     Subscription.nextPaymentDue := Subscription.nextPaymentDue sub;
     Subscription.endTime := Subscription.endTime sub;
     Subscription.totalPaid := Subscription.totalPaid sub;
     Subscription.missedPayments := Subscription.missedPayments sub + 1;
     Subscription.active := Subscription.active sub;
     Subscription.autoRenew := Subscription.autoRenew sub |}.

(** Modelled from the spec: [processPayment], which the contract does not
    define (the documentation of the repository lists only its signature,
    [processPayment(bytes32 planId) external payable]). Section 4.2: it
    requires an active Subscription whose [nextPaymentDue] has arrived or is
    within grace (the boundary [nextPaymentDue + gracePeriod] included); on
    success it advances [nextPaymentDue] by [interval] from the scheduled
    date, appends a PaymentRecord and resets the missed-payment streak;
    after grace it fails with [GracePeriodExceeded] and increments
    [missedPayments]; after [endTime] no charge is accepted unless
    [autoRenew] renews, which extends [endTime] by [duration] and charges as
    usual. The spec names no failure for a call before the due date or
    after [endTime] without renewal; they are [NotYetDue] and
    [SubscriptionExpired] here, and change nothing. *)
Definition processPayment (now : uint256) (planId : bytes32) (subscriber : address)
    (settlementRef : string) (s : State) : Outcome * State :=
  let sub := subscription_of s planId subscriber in
  let plan := plan_of s planId in
  if negb (Subscription.active sub) then (Rejected SubscriptionNotFound, s)
  else if now <? Subscription.nextPaymentDue sub then (Rejected NotYetDue, s)
  else if Subscription.nextPaymentDue sub + SubscriptionPlan.gracePeriod plan <? now then
    (Rejected GracePeriodExceeded, set_subscription planId subscriber (miss sub) s)
  else if Subscription.endTime sub <? now then
    if Subscription.autoRenew sub then
      (Charged {| record_planId := planId; record_subscriber := subscriber;
                  record_amount := SubscriptionPlan.amount plan; record_timestamp := now;
                  record_settlementRef := settlementRef; record_type := Renewal |},
       set_subscription planId subscriber
         (charge plan (Subscription.endTime sub + SubscriptionPlan.duration plan) sub) s)
    else (Rejected SubscriptionExpired, s)
  else
    (Charged {| record_planId := planId; record_subscriber := subscriber;
                record_amount := SubscriptionPlan.amount plan; record_timestamp := now;
                record_settlementRef := settlementRef; record_type := Recurring |},
     set_subscription planId subscriber (charge plan (Subscription.endTime sub) sub) s).

(** Modelled from the spec: [processPayment] attempted at each of the given
    times, in order: the number of attempts that were charged, and the
    storage at the end. *)
Fixpoint attempts (times : list uint256) (planId : bytes32) (subscriber : address)
    (s : State) : nat * State :=
  match times with
  | [] => (O, s)
  | now :: times' =>
      let r := processPayment now planId subscriber EmptyString s in
      let rest := attempts times' planId subscriber (snd r) in
      ((if is_Charged (fst r) then S (fst rest) else fst rest), snd rest)
  end.

End SubscriptionLedger.


(** ** frontend/api-client.js: errors, cache and retries of the API client *)

(** [APIError]: the predicates on the HTTP status it carries (0 stands for a
    failure of the network). *)
Module APIError.

Record t : Type := mk {
  status : Z;
  message : string;
}.

Definition isNetworkError (e : t) : bool := status e =? 0.
Definition isClientError (e : t) : bool := (400 <=? status e) && (status e <? 500).
Definition isServerError (e : t) : bool := 500 <=? status e.
Definition isPaymentRequired (e : t) : bool := status e =? 402.
Definition isNotFound (e : t) : bool := status e =? 404.
Definition isForbidden (e : t) : bool := status e =? 403.

End APIError.

(** [DataTransformer]: the computed fields of [formatSubscription], on
    times in milliseconds, and [formatAddress] on a string as the list of
    its code units. *)
Module DataTransformer.






(** [address.slice(0, 6)], three dots, [address.slice(-4)]; the empty string
    for an empty (or absent) address. *)
Definition formatAddress (address : list Z) : list Z :=
  match address with
  | [] => []
  | _ => take 6 address ++ [46; 46; 46] ++ drop (length address - 4) address
  end.

End DataTransformer.

(** [APICache]: a map from keys to data with the time they were stored.
    [now] is [Date.now()] at the call; [null] is what [get] returns for a
    miss. *)
Module APICache.
Section Cache.
Context {value : Type} (null : value).

Record Item : Type := { data : value; timestamp : Z }.

Record t : Type := { cache : gmap string Item; ttl : Z }.

(** [new APICache(ttl)], 5 minutes when no [ttl] is given. *)
Definition new (ttl : option Z) : t :=
  {| cache := ∅; ttl := default 300000 ttl |}.

Definition set (now : Z) (key : string) (d : value) (c : t) : t :=
  {| cache := <[key := {| data := d; timestamp := now |}]> (cache c); ttl := ttl c |}.

Definition delete (key : string) (c : t) : t :=
  {| cache := base.delete key (cache c); ttl := ttl c |}.

Definition clear (c : t) : t := {| cache := ∅; ttl := ttl c |}.

(** The value returned and the cache afterwards: an entry older than [ttl]
    is deleted by the [get] that finds it. *)
Definition get (now : Z) (key : string) (c : t) : value * t :=
  match cache c !! key with
  | None => (null, c)
  | Some item =>
      if ttl c <? now - timestamp item then (null, delete key c)
      else (data item, c)
  end.

End Cache.
End APICache.

(** [EnhancedAPIClient.requestWithCache]. The network is [request], giving
    the outcome of the call made in each attempt (numbered from 1): the data
    of the response, or the [APIError] that [APIClient.request] throws.
    [clock] is [Date.now()] when the response of an attempt arrives. *)
Module EnhancedAPIClient.
Section Client.
Context {value : Type} (null : value) (truthy : value -> bool).

Inductive Response : Type :=
| Success (v : value)
| Failure (e : APIError.t).

(** What the call ends with: the value returned, or the error thrown
    ([None] for [undefined], thrown when no attempt was made). *)
Inductive Outcome : Type :=
| Returned (v : value)
| Thrown (e : option APIError.t).

Record Run : Type := {
  outcome : Outcome;
  cache_after : APICache.t (value := value);
  requests : nat;        (* calls of [request] made *)
  delays : list Z;       (* the waits between attempts, in milliseconds *)
}.

(** [options.x || d]: the default also replaces 0. *)
Definition or_default (x : option Z) (d : Z) : Z :=
  match x with
  | Some v => if v =? 0 then d else v
  | None => d
  end.

Record t : Type := {
  cache : APICache.t (value := value);
  retryAttempts : Z;
  retryDelay : Z;
}.

(** [new EnhancedAPIClient(baseURL, options)]. *)
Definition new (cacheTTL retryAttempts retryDelay : option Z) : t :=
  {| cache := APICache.new cacheTTL;
     retryAttempts := or_default retryAttempts 3;
     retryDelay := or_default retryDelay 1000 |}.

(** [!options.method || options.method === 'GET'] *)
Definition is_GET (method : option string) : bool :=
  match method with
  | None => true
  | Some m => String.eqb m EmptyString || String.eqb m "GET"
  end.

(** The loop [for (attempt = ...; attempt <= retryAttempts; attempt++)] with
    [remaining] iterations left. *)
Fixpoint attempts (request : Z -> Response) (clock : Z -> Z) (client : t)
    (cacheKey : string) (cacheable : bool)
    (remaining : nat) (attempt : Z) (lastError : option APIError.t)
    (c : APICache.t (value := value)) : Run :=
  match remaining with
  | O => {| outcome := Thrown lastError; cache_after := c; requests := 0; delays := [] |}
  | S remaining' =>
      match request attempt with
      | Success result =>
          {| outcome := Returned result;
             cache_after :=
               if cacheable then APICache.set (clock attempt) cacheKey result c else c;
             requests := 1; delays := [] |}
      | Failure error =>
          if APIError.isClientError error then
            {| outcome := Thrown (Some error); cache_after := c; requests := 1;
               delays := [] |}
          else
            let rest :=
              attempts request clock client cacheKey cacheable remaining' (attempt + 1)
                (Some error) c in
            {| outcome := outcome rest; cache_after := cache_after rest;
               requests := S (requests rest);
               delays :=
                 (if attempt <? retryAttempts client
                  then [retryDelay client * attempt] else []) ++ delays rest |}
      end
  end.

(** [now] is [Date.now()] when the cache is read. *)
Definition requestWithCache (request : Z -> Response) (clock : Z -> Z) (now : Z)
    (client : t) (cacheKey : string) (method : option string) (useCache : bool) : Run :=
  let cacheable := useCache && is_GET method in
  let retry c :=
    attempts request clock client cacheKey cacheable
      (Z.to_nat (retryAttempts client)) 1 None c in
  if cacheable then
    let looked := APICache.get null now cacheKey (cache client) in
    if truthy (fst looked) then
      {| outcome := Returned (fst looked); cache_after := snd looked; requests := 0;
         delays := [] |}
    else retry (snd looked)
  else retry (cache client).

(** A response after which the loop goes on: a failure that is not a client
    error. *)
Definition retriable (r : Response) : Prop :=
  exists e, r = Failure e /\ APIError.isClientError e = false.

(** A response [r] that ends the call, with the outcome [o] the call then
    has and the cache [c'] it leaves: a success is returned, and stored at
    the time [stored_at] for a cacheable request; a client error is thrown
    with the cache [c] left as it is. *)
Definition decisive (cacheable : bool) (stored_at : Z) (cacheKey : string)
    (c : APICache.t (value := value)) (r : Response) (o : Outcome)
    (c' : APICache.t (value := value)) : Prop :=
  match r with
  | Success v =>
      o = Returned v /\
      c' = if cacheable then APICache.set stored_at cacheKey v c else c
  | Failure e => APIError.isClientError e = true /\ o = Thrown (Some e) /\ c' = c
  end.

End Client.
End EnhancedAPIClient.

(** ** Sample primitives and storage for the examples *)

Module Samples.

(** A polynomial hash standing in for [keccak256]. *)
Definition sample_keccak256 (bs : bytes) : bytes32 :=
  fold_left (fun acc b => (acc * 257 + b + 1) mod 2 ^ 256) bs 0 mod 2 ^ 256.

Definition sample_domainSeparator : bytes32 := 4660.

(** [keccak256("\x19\x01" ‖ domainSeparator ‖ structHash)]. *)
Definition sample_hashTypedDataV4 (structHash : bytes32) : bytes32 :=
  sample_keccak256 (25 :: 1 :: be_bytes 32 sample_domainSeparator ++ be_bytes 32 structHash).

(** A signature names its digest and its signer in the clear: 32 bytes of
    digest, 32 bytes of signer, one byte 27. *)
Definition sample_sign (digest : bytes32) (signer : address) : bytes :=
  be_bytes 32 digest ++ be_bytes 32 signer ++ [27].

Definition sample_recover (digest : bytes32) (signature : bytes) : result address :=
  if (Z.of_nat (length signature) =? 65) && (from_be (take 32 signature) =? digest)
  then Ok (from_be (take 32 (drop 32 signature)))
  else Err (Revert "ECDSA: invalid signature").

Definition sample_primitives : Primitives := {|
  keccak256 := sample_keccak256;
  _hashTypedDataV4 := sample_hashTypedDataV4;
  recover := sample_recover;
  keccak256_range := fun bs => Z.mod_pos_bound _ (2 ^ 256) eq_refl;
|}.

Definition alice : address := 2748.
Definition bob : address := 3054.
Definition usdc : address := 51966.

(** The time [T0] of the scenarios. *)
Definition T0 : uint256 := 1753025400.
Definition day : uint256 := 86400.

(** [alice] creates a plan at [T0]: 100 units every 30 days for 365 days
    with 3 days of grace, paid in [token]. *)
Definition create (token : address) (s : SubscriptionManager.State)
    : result (bytes32 * SubscriptionManager.State * list SubscriptionManager.Log) :=
  SubscriptionManager.createPlan (prim := sample_primitives) T0 alice token
    100 (30 * day) (365 * day) (3 * day) "https://api.example.com" s.

Definition id_of
    (r : result (bytes32 * SubscriptionManager.State * list SubscriptionManager.Log))
    : bytes32 :=
  match r with
  | Ok (planId, _, _) => planId
  | Err _ => 0
  end.

Definition state_of
    (r : result (bytes32 * SubscriptionManager.State * list SubscriptionManager.Log))
    : SubscriptionManager.State :=
  match r with
  | Ok (_, s, _) => s
  | Err _ => SubscriptionManager.init
  end.

(** Storage with a native-token plan [native_id], then also with a
    fungible-token plan [token_id]. *)
Definition native_id : bytes32 :=
  Eval vm_compute in id_of (create address0 SubscriptionManager.init).
Definition one_plan : SubscriptionManager.State :=
  Eval vm_compute in state_of (create address0 SubscriptionManager.init).
Definition token_id : bytes32 := Eval vm_compute in id_of (create usdc one_plan).
Definition two_plans : SubscriptionManager.State :=
  Eval vm_compute in state_of (create usdc one_plan).

(** [bob] subscribed to the native plan at [T0], paying exactly 100: the
    storage and the log of the call. *)
Definition bob_subscribed : SubscriptionManager.State :=
  Eval vm_compute in
    match SubscriptionManager.subscribe SubscriptionManager.plain_recipient T0 bob 100
            native_id true two_plans with
    | Ok (s, _) => s
    | Err _ => two_plans
    end.

Definition bob_log : list SubscriptionManager.Log :=
  Eval vm_compute in
    match SubscriptionManager.subscribe SubscriptionManager.plain_recipient T0 bob 100
            native_id true two_plans with
    | Ok (_, log) => log
    | Err _ => []
    end.

(** [bob] subscribed to the fungible-token plan at [T0], sending no value. *)
Definition bob_unpaid : SubscriptionManager.State :=
  Eval vm_compute in
    match SubscriptionManager.subscribe SubscriptionManager.plain_recipient T0 bob 0
            token_id false two_plans with
    | Ok (s, _) => s
    | Err _ => two_plans
    end.

(** A payment authorization by [alice] with nonce 0, valid until [T0], and
    her signature on it. *)
Definition alice_intent : EIP712Payment.Intent :=
  EIP712Payment.PaymentAuthorization alice address0 100 T0 0 "subscribe".

Definition alice_signature : bytes :=
  Eval vm_compute in
    sample_sign (EIP712Payment.intent_digest (prim := sample_primitives) alice_intent) alice.

(** The nonce storage once [alice]'s authorization has been admitted. *)
Definition alice_admitted : EIP712Payment.State :=
  {| EIP712Payment.nonces := <[alice := 1]> ∅ |}.

(** Calls on the nonce ledger: [alice]'s nonce is incremented twice, among
    calls about [bob]. *)
Definition nonce_ops : list (uint256 * EIP712Payment.Op) :=
  [(T0, EIP712Payment.OpGetNonce bob); (T0, EIP712Payment.OpIncrementNonce alice);
   (T0, EIP712Payment.OpIncrementNonce bob); (T0 + day, EIP712Payment.OpIncrementNonce alice)].

(** The nonce storage once [bob]'s nonce has been incremented. *)
Definition bob_admitted : EIP712Payment.State :=
  {| EIP712Payment.nonces := <[bob := 1]> ∅ |}.

(** The history that leads from the constructor to [bob_subscribed]. *)
Definition sample_history : list (uint256 * SubscriptionManager.Tx) :=
  [(T0, SubscriptionManager.TxCreatePlan alice address0 100 (30 * day) (365 * day) (3 * day)
          "https://api.example.com");
   (T0, SubscriptionManager.TxCreatePlan alice usdc 100 (30 * day) (365 * day) (3 * day)
          "https://api.example.com");
   (T0, SubscriptionManager.TxSubscribe bob 100 native_id true
          (SubscriptionManager.Accepts []))].

(** What follows it: [alice] subscribes to her own plan a day later, and
    [bob] tries again. *)
Definition later_history : list (uint256 * SubscriptionManager.Tx) :=
  [(T0 + day, SubscriptionManager.TxSubscribe alice 100 native_id false
                (SubscriptionManager.Accepts []));
   (T0 + 2 * day, SubscriptionManager.TxSubscribe bob 100 native_id false
                    (SubscriptionManager.Accepts []))].

(** Responses of the API as optional strings: [None] is null, and the empty
    string is falsy too. *)
Definition sample_truthy (v : option string) : bool :=
  match v with
  | Some s => negb (String.eqb s EmptyString)
  | None => false
  end.

(** A network that answers 503, then cannot be reached, then answers. *)
Definition flaky_network (attempt : Z) : EnhancedAPIClient.Response (value := option string) :=
  if attempt =? 1 then EnhancedAPIClient.Failure (APIError.mk 503 "Service Unavailable")
  else if attempt =? 2 then EnhancedAPIClient.Failure (APIError.mk 0 "Network error")
  else EnhancedAPIClient.Success (Some "plans").

(** A server that fails at every attempt. *)
Definition down_network (attempt : Z) : EnhancedAPIClient.Response (value := option string) :=
  EnhancedAPIClient.Failure (APIError.mk 500 "Internal Server Error").

(** Times in milliseconds: the call is made at [sample_now], and the
    response of each attempt arrives two seconds after the one before. *)
Definition sample_now : Z := T0 * 1000.
Definition sample_clock (attempt : Z) : Z := sample_now + 2000 * attempt.

(** A client with the default options, its cache empty, and the key of a
    request for the plans. *)
Definition sample_client : EnhancedAPIClient.t (value := option string) :=
  EnhancedAPIClient.new None None None.
Definition plans_key : string := "/plans?active_only=true_{}".

End Samples.

(** * Properties *)

(** ** Byte encodings *)

Lemma length_be_bytes (n : nat) (v : Z) : length (be_bytes n v) = n.
Proof.
  revert v. induction n as [|n IH]; intros v; simpl; [reflexivity|].
  rewrite length_app, IH. simpl. lia.
Qed.

Lemma from_be_snoc (bs : list Z) (b : Z) : from_be (bs ++ [b]) = from_be bs * 256 + b.
Proof. unfold from_be. rewrite fold_left_app. reflexivity. Qed.

Lemma from_be_be_bytes (n : nat) (v : Z) :
  0 <= v -> from_be (be_bytes n v) = v mod 256 ^ Z.of_nat n.
Proof.
  revert v. induction n as [|n IH]; intros v Hv.
  - simpl. rewrite Z.mod_1_r. reflexivity.
  - cbn [be_bytes]. rewrite from_be_snoc, IH by (apply Z.div_pos; lia).
    rewrite Nat2Z.inj_succ, Z.pow_succ_r by lia.
    rewrite (Z.rem_mul_r v 256 (256 ^ Z.of_nat n)) by lia. lia.
Qed.

Lemma be_bytes_inj (n : nat) (a b : Z) :
  0 <= a < 256 ^ Z.of_nat n -> 0 <= b < 256 ^ Z.of_nat n ->
  be_bytes n a = be_bytes n b -> a = b.
Proof.
  intros Ha Hb Heq.
  rewrite <- (Z.mod_small a (256 ^ Z.of_nat n)), <- (Z.mod_small b (256 ^ Z.of_nat n)) by lia.
  rewrite <- !from_be_be_bytes by lia. congruence.
Qed.

Lemma word_inj (a b : Z) :
  0 <= a < 2 ^ 256 -> 0 <= b < 2 ^ 256 -> be_bytes 32 a = be_bytes 32 b -> a = b.
Proof. apply (be_bytes_inj 32). Qed.

Lemma abi_encode_cons (w : Z) (ws : list Z) :
  abi_encode (w :: ws) = be_bytes 32 w ++ abi_encode ws.
Proof. reflexivity. Qed.

(** The first word of an encoding determines the first value encoded. *)
Lemma abi_encode_head_inj (a b : Z) (l l' : list Z) :
  0 <= a < 2 ^ 256 -> 0 <= b < 2 ^ 256 ->
  abi_encode (a :: l) = abi_encode (b :: l') -> a = b.
Proof.
  intros Ha Hb. rewrite !abi_encode_cons. intros Heq.
  apply app_inj_1 in Heq as [Hw _]; [|rewrite !length_be_bytes; reflexivity].
  apply word_inj; assumption.
Qed.

(** The packed encoding determines its middle component. *)
Lemma abi_encodePacked_inj_counter (a a' : Z) (x x' y y' : Z) :
  0 <= x < 2 ^ 256 -> 0 <= x' < 2 ^ 256 ->
  abi_encodePacked_address_uint256_uint256 a x y =
  abi_encodePacked_address_uint256_uint256 a' x' y' -> x = x'.
Proof.
  intros Hx Hx'. unfold abi_encodePacked_address_uint256_uint256. intros Heq.
  apply app_inj_1 in Heq as [_ Heq]; [|rewrite !length_be_bytes; reflexivity].
  apply app_inj_1 in Heq as [Heq _]; [|rewrite !length_be_bytes; reflexivity].
  apply word_inj; assumption.
Qed.

Lemma checked_add_Ok (a b c : Z) : checked_add a b = Ok c -> c = a + b /\ a + b <= MAX_UINT256.
Proof.
  unfold checked_add. destruct (Z.leb_spec (a + b) MAX_UINT256) as [Hle|Hgt]; intros Heq;
    inversion Heq. lia.
Qed.

Lemma checked_add_Err (a b : Z) (f : Failure) : checked_add a b = Err f -> f = Panic 17.
Proof. unfold checked_add. destruct (a + b <=? MAX_UINT256); congruence. Qed.

Lemma checked_add_fits (a b : Z) : a + b <= MAX_UINT256 -> checked_add a b = Ok (a + b).
Proof. unfold checked_add. intros H. apply Z.leb_le in H. rewrite H. reflexivity. Qed.

(** ** EIP712Payment *)

Section EIP712PaymentProperties.
Context {prim : Primitives}.
Import EIP712Payment.

Lemma nonce_of_insert (s : State) (user other : address) (n : uint256) :
  nonce_of {| nonces := <[user := n]> (nonces s) |} other =
  if decide (user = other) then n else nonce_of s other.
Proof.
  unfold nonce_of. simpl. rewrite lookup_insert. destruct (decide (user = other)); reflexivity.
Qed.

Lemma _incrementNonce_Ok (user : address) (s s' : State) (events : list Event) :
  _incrementNonce user s = Ok (s', events) ->
  nonce_of s' user = nonce_of s user + 1 /\
  (forall other, other <> user -> nonce_of s' other = nonce_of s other) /\
  events = [NonceIncremented user (nonce_of s user + 1)].
Proof.
  unfold _incrementNonce. destruct (checked_add (nonce_of s user) 1) as [n|f] eqn:Hadd;
    simpl; [|discriminate].
  apply checked_add_Ok in Hadd as [-> _]. intros Heq. inversion Heq; subst; clear Heq.
  rewrite !nonce_of_insert. destruct (decide (user = user)); [|congruence].
  repeat split. intros other Hne. rewrite nonce_of_insert.
  destruct (decide (user = other)); congruence.
Qed.

(** No operation lowers a stored nonce. *)
Lemma step_nonce_monotone (t : uint256) (op : Op) (s : State) (user : address) :
  nonce_of s user <= nonce_of (snd (step t op s)) user.
Proof.
  destruct op as [i signature|who|who]; simpl; try lia.
  destruct (_incrementNonce who s) as [[s' events]|f] eqn:Hinc; simpl; [|lia].
  apply _incrementNonce_Ok in Hinc as (Hsame & Hother & _).
  destruct (decide (user = who)) as [->|Hne]; [lia|]. rewrite Hother by assumption. lia.
Qed.

Lemma run_nonce_monotone (ops : list (uint256 * Op)) (s : State) (user : address) :
  nonce_of s user <= nonce_of (run ops s) user.
Proof.
  revert s. induction ops as [|[t op] ops IH]; intros s; simpl; [lia|].
  etransitivity; [apply (step_nonce_monotone t op)|apply IH].
Qed.

(** The two [require]s of a verification, in the order of the code. *)
Lemma verifyPaymentAuthorization_guards (s : State) (t : uint256)
    (payer token : address) (amount deadline nonce : uint256) (action : string)
    (signature : bytes) :
  verifyPaymentAuthorization s t payer token amount deadline nonce action signature =
  if t <=? deadline then
    if nonce =? nonce_of s payer then
      let* signer :=
        recover (getTypedDataHash
                   (buildPaymentAuthorizationHash payer token amount deadline nonce action))
          signature in
      Ok (signer =? payer)
    else Err NonceMismatch
  else Err DeadlineExpired.
Proof.
  unfold verifyPaymentAuthorization.
  destruct (t <=? deadline); simpl; [|reflexivity].
  destruct (nonce =? nonce_of s payer); reflexivity.
Qed.

(** C1 (as amended): once a payment authorization of a payer has verified
    with some nonce and the nonce increment that admits it has run, the
    stored nonce of that payer is above the presented one after every later
    run of operations, so no later verification presenting the same nonce
    succeeds: it fails with NonceMismatch when its deadline has not passed,
    and with DeadlineExpired, the check made first, when it has. *)
Theorem nonce_replay_rejected (s s1 : State) (events : list Event) (t : uint256)
    (payer token : address) (amount deadline nonce : uint256) (action : string)
    (signature : bytes) (ops : list (uint256 * Op))
    (t' : uint256) (token' : address) (amount' deadline' : uint256) (action' : string)
    (signature' : bytes) :
  verifyPaymentAuthorization s t payer token amount deadline nonce action signature = Ok true ->
  _incrementNonce payer s = Ok (s1, events) ->
  nonce < getNonce (run ops s1) payer /\
  verifyPaymentAuthorization (run ops s1) t' payer token' amount' deadline' nonce action'
    signature' =
  Err (if t' <=? deadline' then NonceMismatch else DeadlineExpired).
Proof.
  intros Hfirst Hinc.
  rewrite verifyPaymentAuthorization_guards in Hfirst.
  destruct (t <=? deadline); [|discriminate].
  destruct (Z.eqb_spec nonce (nonce_of s payer)) as [Hnonce|]; [|discriminate].
  apply _incrementNonce_Ok in Hinc as (Hsucc & _ & _).
  pose proof (run_nonce_monotone ops s1 payer) as Hmono.
  assert (nonce < nonce_of (run ops s1) payer) as Hlt by lia.
  split; [exact Hlt|].
  rewrite verifyPaymentAuthorization_guards.
  destruct (t' <=? deadline'); [|reflexivity].
  destruct (Z.eqb_spec nonce (nonce_of (run ops s1) payer)); [lia|reflexivity].
Qed.

(** C2: when the deadline has not passed and the presented nonce is the
    stored one, verifyPaymentAuthorization returns true exactly when the
    signer recovered from the typed-data digest of the authorization and the
    signature is the claimed payer. *)
Theorem verifyPaymentAuthorization_iff_signer (s : State) (t : uint256)
    (payer token : address) (amount deadline nonce : uint256) (action : string)
    (signature : bytes) :
  t <= deadline ->
  nonce = getNonce s payer ->
  (verifyPaymentAuthorization s t payer token amount deadline nonce action signature = Ok true)
  <->
  (recover (getTypedDataHash
              (buildPaymentAuthorizationHash payer token amount deadline nonce action))
     signature = Ok payer).
Proof.
  intros Ht Hnonce. rewrite verifyPaymentAuthorization_guards.
  apply Z.leb_le in Ht. rewrite Ht.
  unfold getNonce in Hnonce. apply Z.eqb_eq in Hnonce. rewrite Hnonce.
  destruct (recover _ signature) as [signer|f]; simpl.
  - destruct (Z.eqb_spec signer payer) as [->|Hne]; split; intros H;
      try reflexivity; try discriminate. inversion H. congruence.
  - split; discriminate.
Qed.

(** C3: a verification whose deadline is before the block's time fails
    with DeadlineExpired, whatever the nonce and the signature, and leaves
    every stored nonce as it was. *)
Theorem expired_deadline_rejected (s : State) (t : uint256)
    (payer token : address) (amount deadline nonce : uint256) (action : string)
    (signature : bytes) :
  deadline < t ->
  verifyPaymentAuthorization s t payer token amount deadline nonce action signature =
    Err DeadlineExpired /\
  forall user,
    getNonce
      (snd (step t (OpVerify (PaymentAuthorization payer token amount deadline nonce action)
                      signature) s)) user
    = getNonce s user.
Proof.
  intros Ht. rewrite verifyPaymentAuthorization_guards.
  assert ((t <=? deadline) = false) as Hexp by (apply Z.leb_gt; exact Ht).
  split; [rewrite Hexp; reflexivity|]. intros user. reflexivity.
Qed.

(** A verification that returns true has recovered the intent's signer from
    the intent's digest. *)
Lemma verify_true_recover (s : State) (t : uint256) (i : Intent) (signature : bytes) :
  verify s t i signature = Ok true ->
  recover (intent_digest i) signature = Ok (intent_signer i).
Proof.
  destruct i; cbn [verify intent_signer];
    unfold verifyPaymentAuthorization, verifySubscriptionAuthorization,
      verifyRecurringPayment, intent_digest; cbn [intent_encoding];
    unfold paymentAuthorizationEncoding, subscriptionAuthorizationEncoding,
      recurringPaymentEncoding;
    (destruct (_ <=? _); [|discriminate]);
    (destruct (_ =? nonce_of _ _); [|discriminate]); cbn [require bind];
    (destruct (recover _ signature) as [signer|f]; [|discriminate]); cbn [bind];
    intros Heq; inversion Heq as [Hsigner]; apply Z.eqb_eq in Hsigner; congruence.
Qed.

Lemma intent_typehash_class (i : Intent) :
  intent_typehash i = keccak256 (bytes_of_string (intent_type_string (intent_class i))).
Proof. destruct i; reflexivity. Qed.

(** The type tag is the first word of what is hashed. *)
Lemma intent_encoding_typehash (i j : Intent) :
  intent_encoding i = intent_encoding j -> intent_typehash i = intent_typehash j.
Proof.
  destruct i, j; cbn [intent_encoding intent_typehash];
    unfold paymentAuthorizationEncoding, subscriptionAuthorizationEncoding,
      recurringPaymentEncoding;
    apply abi_encode_head_inj; apply keccak256_range.
Qed.

(** The three type strings are pairwise different. *)
Lemma intent_type_string_inj (c c' : IntentClass) :
  bytes_of_string (intent_type_string c) = bytes_of_string (intent_type_string c') -> c = c'.
Proof.
  destruct c, c'; intros Heq; try reflexivity; vm_compute in Heq; discriminate Heq.
Qed.

(** C4: a signature that verifies for an intent of one action class does
    not verify, for the same signer, for an intent of another class, whatever
    the field values of the two: the type tag of the class is the first word
    hashed into the digest and the three tags come from three different type
    strings. The primitives are outside the contract, so the statement is
    under the absence of a collision of keccak256 and _hashTypedDataV4 on the
    values of these two intents, and for a signature that does not recover to
    the same signer under two different digests. *)
Theorem cross_class_replay_rejected (s s' : State) (t t' : uint256) (i j : Intent)
    (signature : bytes) :
  intent_class i <> intent_class j ->
  intent_signer i = intent_signer j ->
  collision_free (bytes_of_string (intent_type_string (intent_class i)))
                 (bytes_of_string (intent_type_string (intent_class j))) ->
  collision_free (intent_encoding i) (intent_encoding j) ->
  typed_hash_collision_free (keccak256 (intent_encoding i)) (keccak256 (intent_encoding j)) ->
  signature_binds signature (intent_digest i) (intent_digest j) ->
  verify s t i signature = Ok true ->
  verify s' t' j signature <> Ok true.
Proof.
  intros Hclass Hsigner Htags Henc Htyped Hbinds Hi Hj.
  apply verify_true_recover in Hi, Hj. rewrite <- Hsigner in Hj.
  pose proof (Hbinds _ Hi Hj) as Hdigest.
  apply Htyped, Henc, intent_encoding_typehash in Hdigest.
  rewrite !intent_typehash_class in Hdigest.
  apply Htags, intent_type_string_inj in Hdigest. contradiction.
Qed.

End EIP712PaymentProperties.

(** *** Instances on the sample primitives *)

Section EIP712PaymentExamples.
Import EIP712Payment Samples.
#[local] Existing Instance sample_primitives.

Lemma alice_verifies :
  verifyPaymentAuthorization init T0 alice address0 100 T0 0 "subscribe" alice_signature
    = Ok true.
Proof. vm_compute. reflexivity. Qed.

Lemma alice_is_admitted :
  _incrementNonce alice init = Ok (alice_admitted, [NonceIncremented alice 1]).
Proof. vm_compute. reflexivity. Qed.

Lemma nonce_replay_rejected_witness :
  0 < getNonce (run [(T0, OpGetNonce bob); (T0, OpIncrementNonce bob)] alice_admitted) alice /\
  verifyPaymentAuthorization
    (run [(T0, OpGetNonce bob); (T0, OpIncrementNonce bob)] alice_admitted)
    T0 alice address0 100 T0 0 "subscribe" alice_signature
  = Err (if T0 <=? T0 then NonceMismatch else DeadlineExpired).
Proof.
  exact (nonce_replay_rejected init alice_admitted [NonceIncremented alice 1] T0 alice address0
           100 T0 0 "subscribe" alice_signature
           [(T0, OpGetNonce bob); (T0, OpIncrementNonce bob)]
           T0 address0 100 T0 "subscribe" alice_signature alice_verifies alice_is_admitted).
Defined.

(** C1, as stated, fails: [alice]'s authorization, valid until [T0],
    verifies at [T0] and is admitted; its replay one second later is rejected
    with DeadlineExpired, not with NonceMismatch. *)
Lemma replay_after_deadline_not_NonceMismatch :
  verifyPaymentAuthorization init T0 alice address0 100 T0 0 "subscribe" alice_signature
    = Ok true /\
  _incrementNonce alice init = Ok (alice_admitted, [NonceIncremented alice 1]) /\
  verifyPaymentAuthorization alice_admitted (T0 + 1) alice address0 100 T0 0 "subscribe"
    alice_signature = Err DeadlineExpired /\
  verifyPaymentAuthorization alice_admitted (T0 + 1) alice address0 100 T0 0 "subscribe"
    alice_signature <> Err NonceMismatch.
Proof.
  split; [exact alice_verifies|]. split; [exact alice_is_admitted|].
  split; [vm_compute; reflexivity|]. vm_compute. discriminate.
Qed.

Lemma verifyPaymentAuthorization_iff_signer_witness :
  (verifyPaymentAuthorization init T0 alice address0 100 T0 0 "subscribe" alice_signature
     = Ok true)
  <->
  (recover (getTypedDataHash (buildPaymentAuthorizationHash alice address0 100 T0 0 "subscribe"))
     alice_signature = Ok alice).
Proof.
  apply (verifyPaymentAuthorization_iff_signer init T0 alice address0 100 T0 0 "subscribe"
           alice_signature).
  - lia.
  - reflexivity.
Defined.

(** Scenario C: the deadline is one second in the past, the nonce is the
    stored one and the signature is the payer's. *)
Lemma expired_deadline_rejected_witness :
  verifyPaymentAuthorization init T0 alice address0 100 (T0 - 1) 0 "subscribe"
    (sample_sign (intent_digest (PaymentAuthorization alice address0 100 (T0 - 1) 0 "subscribe"))
       alice) = Err DeadlineExpired /\
  forall user,
    getNonce
      (snd (step T0
              (OpVerify (PaymentAuthorization alice address0 100 (T0 - 1) 0 "subscribe")
                 (sample_sign
                    (intent_digest
                       (PaymentAuthorization alice address0 100 (T0 - 1) 0 "subscribe"))
                    alice)) init)) user
    = getNonce init user.
Proof.
  apply (expired_deadline_rejected init T0 alice address0 100 (T0 - 1) 0 "subscribe"
           (sample_sign
              (intent_digest (PaymentAuthorization alice address0 100 (T0 - 1) 0 "subscribe"))
              alice)).
  lia.
Defined.

Lemma alice_intent_verifies : verify init T0 alice_intent alice_signature = Ok true.
Proof. vm_compute. reflexivity. Qed.

(** The sample primitives do not collide on [alice]'s payment authorization
    and the subscription authorization with the same field values. *)
Lemma sample_type_strings_collision_free :
  collision_free (bytes_of_string (intent_type_string ClsPayment))
                 (bytes_of_string (intent_type_string ClsSubscription)).
Proof. intros H. exfalso. revert H. vm_compute. discriminate. Qed.

Lemma sample_encodings_collision_free :
  collision_free (intent_encoding alice_intent)
                 (intent_encoding (SubscriptionAuthorization 0 alice 100 T0 0 false)).
Proof. intros H. exfalso. revert H. vm_compute. discriminate. Qed.

Lemma sample_struct_hashes_collision_free :
  typed_hash_collision_free
    (keccak256 (intent_encoding alice_intent))
    (keccak256 (intent_encoding (SubscriptionAuthorization 0 alice 100 T0 0 false))).
Proof. intros H. exfalso. revert H. vm_compute. discriminate. Qed.

Lemma alice_signature_binds :
  signature_binds alice_signature (intent_digest alice_intent)
    (intent_digest (SubscriptionAuthorization 0 alice 100 T0 0 false)).
Proof. intros signer _ H. exfalso. revert H. vm_compute. discriminate. Qed.

Lemma cross_class_replay_rejected_witness :
  verify init T0 (SubscriptionAuthorization 0 alice 100 T0 0 false) alice_signature <> Ok true.
Proof.
  apply (cross_class_replay_rejected init init T0 T0 alice_intent
           (SubscriptionAuthorization 0 alice 100 T0 0 false) alice_signature).
  - discriminate.
  - reflexivity.
  - exact sample_type_strings_collision_free.
  - exact sample_encodings_collision_free.
  - exact sample_struct_hashes_collision_free.
  - exact alice_signature_binds.
  - exact alice_intent_verifies.
Defined.

End EIP712PaymentExamples.

(** ** SubscriptionManager *)


Section SubscriptionManagerProperties.
Context {prim : Primitives}.
Import SubscriptionManager.

Lemma plan_of_set_plan (planId planId' : bytes32) (p : SubscriptionPlan.t) (s : State) :
  plan_of (set_plan planId p s) planId' =
  if decide (planId = planId') then p else plan_of s planId'.
Proof.
  unfold plan_of, set_plan. simpl. rewrite lookup_insert.
  destruct (decide (planId = planId')); reflexivity.
Qed.

Lemma plan_of_set_subscription (planId planId' : bytes32) (who : address)
    (sub : Subscription.t) (s : State) :
  plan_of (set_subscription planId who sub s) planId' = plan_of s planId'.
Proof. reflexivity. Qed.

Lemma subscription_of_set_plan (planId planId' : bytes32) (who : address)
    (p : SubscriptionPlan.t) (s : State) :
  subscription_of (set_plan planId p s) planId' who = subscription_of s planId' who.
Proof. reflexivity. Qed.

Lemma subscription_of_set_subscription (planId planId' : bytes32) (who who' : address)
    (sub : Subscription.t) (s : State) :
  subscription_of (set_subscription planId who sub s) planId' who' =
  if decide ((planId, who) = (planId', who')) then sub else subscription_of s planId' who'.
Proof.
  unfold subscription_of, set_subscription. simpl. rewrite lookup_insert.
  destruct (decide ((planId, who) = (planId', who'))); reflexivity.
Qed.

Lemma callee_Accepts (t : uint256) (txs : list Tx) (s : State) :
  callee t (Accepts txs) s = Some (reentrant_calls t txs s).
Proof.
  cbn [callee]. f_equal. revert s.
  induction txs as [|tx txs IH]; intros s; [reflexivity|].
  cbn [reentrant_calls]. destruct (exec t tx s) as [[s1 log1]|f]; rewrite IH; reflexivity.
Qed.

(** Everything a successful [subscribe] has checked and done. [s1] is the
    storage when the record is written: [s] itself unless the plan is paid in
    the native token and the recipient called back. *)
Lemma subscribe_Ok_inv (call_value : address -> uint256 -> State -> option (State * list Log))
    (t : uint256) (msg_sender : address) (msg_value : uint256) (planId : bytes32)
    (autoRenew : bool) (s s' : State) (log : list Log) :
  subscribe call_value t msg_sender msg_value planId autoRenew s = Ok (s', log) ->
  let plan := plan_of s planId in
  SubscriptionPlan.active plan = true /\
  Subscription.subscriber (subscription_of s planId msg_sender) = address0 /\
  exists (s1 : State) (log1 : list Log),
    ((SubscriptionPlan.token plan = address0 /\
      SubscriptionPlan.amount plan <= msg_value /\
      exists log0,
        call_value (SubscriptionPlan.paymentRecipient plan) (SubscriptionPlan.amount plan) s
          = Some (s1, log0) /\
        log1 = ValueSent (SubscriptionPlan.paymentRecipient plan) (SubscriptionPlan.amount plan)
                 :: log0)
     \/ (SubscriptionPlan.token plan <> address0 /\ s1 = s /\ log1 = [])) /\
    t + SubscriptionPlan.interval plan <= MAX_UINT256 /\
    t + SubscriptionPlan.duration plan <= MAX_UINT256 /\
    SubscriptionPlan.totalSubscribers (plan_of s1 planId) + 1 <= MAX_UINT256 /\
    s' = set_plan planId
           (SubscriptionPlan.set_totalSubscribers
              (SubscriptionPlan.totalSubscribers (plan_of s1 planId) + 1) (plan_of s1 planId))
           (set_subscription planId msg_sender (new_subscription t msg_sender autoRenew plan) s1)
    /\
    log = log1 ++ [SubscriptionCreated planId msg_sender;
                   PaymentProcessed planId msg_sender (SubscriptionPlan.amount plan)].
Proof.
  intros H plan. unfold subscribe in H. fold plan in H.
  destruct (SubscriptionPlan.active plan) eqn:Hactive; [|discriminate]. cbn [require bind] in H.
  destruct (Z.eqb_spec (Subscription.subscriber (subscription_of s planId msg_sender)) address0)
    as [Hfree|]; [|discriminate]. cbn [bind] in H.
  split; [reflexivity|]. split; [exact Hfree|].
  destruct (Z.eqb_spec (SubscriptionPlan.token plan) address0) as [Hnative|Htoken].
  - destruct (Z.leb_spec (SubscriptionPlan.amount plan) msg_value) as [Hpaid|];
      [|discriminate]. cbn [require bind] in H.
    destruct (call_value _ _ s) as [[s1 log0]|] eqn:Hcall; [|discriminate].
    cbn [bind fst snd] in H.
    destruct (checked_add t (SubscriptionPlan.interval plan)) as [due|] eqn:Hdue;
      [|discriminate]. apply checked_add_Ok in Hdue as [-> Hdue]. cbn [bind] in H.
    destruct (checked_add t (SubscriptionPlan.duration plan)) as [ends|] eqn:Hends;
      [|discriminate]. apply checked_add_Ok in Hends as [-> Hends]. cbn [bind] in H.
    rewrite plan_of_set_subscription in H.
    destruct (checked_add _ 1) as [n|] eqn:Hn; [|discriminate].
    apply checked_add_Ok in Hn as [-> Hn]. cbn [bind] in H. inversion H; subst s' log.
    exists s1, (ValueSent (SubscriptionPlan.paymentRecipient plan)
                  (SubscriptionPlan.amount plan) :: log0).
    repeat split; try assumption. left. repeat split; try assumption.
    exists log0. split; reflexivity.
  - cbn [bind fst snd] in H.
    destruct (checked_add t (SubscriptionPlan.interval plan)) as [due|] eqn:Hdue;
      [|discriminate]. apply checked_add_Ok in Hdue as [-> Hdue]. cbn [bind] in H.
    destruct (checked_add t (SubscriptionPlan.duration plan)) as [ends|] eqn:Hends;
      [|discriminate]. apply checked_add_Ok in Hends as [-> Hends]. cbn [bind] in H.
    rewrite plan_of_set_subscription in H.
    destruct (checked_add _ 1) as [n|] eqn:Hn; [|discriminate].
    apply checked_add_Ok in Hn as [-> Hn]. cbn [bind] in H. inversion H; subst s' log.
    exists s, []. repeat split; try assumption. right. repeat split; assumption.
Qed.

Lemma subscribe_inactive (call_value : address -> uint256 -> State -> option (State * list Log))
    (t : uint256) (msg_sender : address) (msg_value : uint256) (planId : bytes32)
    (autoRenew : bool) (s : State) :
  SubscriptionPlan.active (plan_of s planId) = false ->
  subscribe call_value t msg_sender msg_value planId autoRenew s = Err PlanInactive.
Proof. intros H. unfold subscribe. rewrite H. reflexivity. Qed.

Lemma subscribe_duplicate (call_value : address -> uint256 -> State -> option (State * list Log))
    (t : uint256) (msg_sender : address) (msg_value : uint256) (planId : bytes32)
    (autoRenew : bool) (s : State) :
  SubscriptionPlan.active (plan_of s planId) = true ->
  blocked planId msg_sender s ->
  subscribe call_value t msg_sender msg_value planId autoRenew s = Err AlreadySubscribed.
Proof.
  intros Hactive Hblocked. unfold subscribe. rewrite Hactive. cbn [require bind].
  destruct (Z.eqb_spec (Subscription.subscriber (subscription_of s planId msg_sender)) address0)
    as [Hfree|_]; [contradiction|reflexivity].
Qed.

(** A successful [subscribe] leaves its record under [(planId, msg_sender)]
    and the plan's counter one above what it was when the record was
    written. *)
Lemma subscribe_Ok_written
    (call_value : address -> uint256 -> State -> option (State * list Log))
    (t : uint256) (msg_sender : address) (msg_value : uint256) (planId : bytes32)
    (autoRenew : bool) (s s' : State) (log : list Log) :
  subscribe call_value t msg_sender msg_value planId autoRenew s = Ok (s', log) ->
  subscription_of s' planId msg_sender =
    new_subscription t msg_sender autoRenew (plan_of s planId) /\
  SubscriptionPlan.totalSubscribers (plan_of s' planId) =
    SubscriptionPlan.totalSubscribers (plan_of (storage_at_write call_value planId s) planId) + 1.
Proof.
  intros H. apply subscribe_Ok_inv in H as (_ & _ & s1 & log1 & Hpaid & _ & _ & _ & -> & _).
  rewrite subscription_of_set_plan, subscription_of_set_subscription, plan_of_set_plan.
  destruct (decide ((planId, msg_sender) = (planId, msg_sender))); [|congruence].
  destruct (decide (planId = planId)); [|congruence].
  split; [reflexivity|].
  cbn [SubscriptionPlan.set_totalSubscribers SubscriptionPlan.totalSubscribers].
  unfold storage_at_write.
  destruct Hpaid as [(Hnative & _ & log0 & Hcall & _)|(Htoken & -> & _)].
  - rewrite Hnative, Hcall. reflexivity.
  - apply Z.eqb_neq in Htoken. rewrite Htoken. reflexivity.
Qed.

Lemma subscribe_Ok_state
    (call_value : address -> uint256 -> State -> option (State * list Log))
    (t : uint256) (msg_sender : address) (msg_value : uint256) (planId : bytes32)
    (autoRenew : bool) (s s' : State) (log : list Log) :
  subscribe call_value t msg_sender msg_value planId autoRenew s = Ok (s', log) ->
  let s1 := storage_at_write call_value planId s in
  s' = set_plan planId
         (SubscriptionPlan.set_totalSubscribers
            (SubscriptionPlan.totalSubscribers (plan_of s1 planId) + 1) (plan_of s1 planId))
         (set_subscription planId msg_sender
            (new_subscription t msg_sender autoRenew (plan_of s planId)) s1).
Proof.
  intros H. apply subscribe_Ok_inv in H as (_ & _ & s1 & log1 & Hpaid & _ & _ & _ & -> & _).
  unfold storage_at_write.
  destruct Hpaid as [(Hnative & _ & log0 & Hcall & _)|(Htoken & -> & _)].
  - rewrite Hnative, Hcall. reflexivity.
  - apply Z.eqb_neq in Htoken. rewrite Htoken. reflexivity.
Qed.

Lemma createPlan_Ok_inv (t : uint256) (msg_sender token : address)
    (amount interval duration gracePeriod : uint256) (apiUrl : string)
    (s s' : State) (planId : bytes32) (log : list Log) :
  createPlan t msg_sender token amount interval duration gracePeriod apiUrl s
    = Ok (planId, s', log) ->
  0 < amount /\ 0 < interval /\ planCounter s + 1 <= MAX_UINT256 /\
  planId = keccak256 (abi_encodePacked_address_uint256_uint256 msg_sender (planCounter s + 1) t)
  /\
  s' = {| plans :=
            <[planId := SubscriptionPlan.mk token amount interval duration gracePeriod true
                          msg_sender msg_sender apiUrl 0]> (plans s);
          subscriptions := subscriptions s; nonces := nonces s;
          allPlans := allPlans s ++ [planId]; planCounter := planCounter s + 1 |} /\
  log = [PlanCreated planId msg_sender token amount].
Proof.
  unfold createPlan.
  destruct (Z.ltb_spec 0 amount) as [Hamount|]; [|discriminate].
  destruct (Z.ltb_spec 0 interval) as [Hinterval|]; [|discriminate]. cbn [require bind].
  destruct (checked_add (planCounter s) 1) as [counter|] eqn:Hcounter; [|discriminate].
  apply checked_add_Ok in Hcounter as [-> Hcounter]. cbn [bind].
  intros H. inversion H. repeat split; assumption.
Qed.

(** A property of the storage that [createPlan] keeps, and that the writes
    of [subscribe] keep, holds after every transaction, whatever calls the
    recipients of its payments make back. *)
Lemma exec_preserves (I : State -> Prop) :
  (forall t msg_sender token amount interval duration gracePeriod apiUrl s planId s' log,
     createPlan t msg_sender token amount interval duration gracePeriod apiUrl s
       = Ok (planId, s', log) -> I s -> I s') ->
  (forall call_value t msg_sender msg_value planId autoRenew s s' log,
     subscribe call_value t msg_sender msg_value planId autoRenew s = Ok (s', log) ->
     I (storage_at_write call_value planId s) -> I s') ->
  forall tx t s s' log, exec t tx s = Ok (s', log) -> I s -> I s'.
Proof.
  intros Hcreate Hsubscribe.
  apply (Tx_nested_ind
           (fun tx => forall t s s' log, exec t tx s = Ok (s', log) -> I s -> I s')
           (fun c => forall t s s' log, callee t c s = Some (s', log) -> I s -> I s')).
  - intros msg_sender token amount interval duration gracePeriod apiUrl t s s' log H Hs.
    cbn [exec] in H.
    destruct (createPlan t msg_sender token amount interval duration gracePeriod apiUrl s)
      as [[[planId s1] log1]|] eqn:Hc; [|discriminate].
    cbn [bind fst snd] in H. inversion H; subst. eapply Hcreate; eassumption.
  - intros msg_sender msg_value planId autoRenew recipient IH t s s' log H Hs.
    cbn [exec] in H. eapply Hsubscribe; [exact H|].
    unfold storage_at_write. destruct (_ =? address0); [|exact Hs].
    destruct (callee t recipient s) as [[s1 log1]|] eqn:Hcallee; [|exact Hs].
    eapply IH; eassumption.
  - intros t s s' log H. discriminate H.
  - intros reentrant Hall t s s' log H. rewrite callee_Accepts in H.
    revert s s' log H. induction Hall as [|tx txs Htx _ IH]; intros s s' log H Hs.
    + cbn in H. inversion H; subst. exact Hs.
    + cbn [reentrant_calls] in H.
      destruct (exec t tx s) as [[s1 log1]|] eqn:Hexec.
      * destruct (reentrant_calls t txs s1) as [s2 log2] eqn:Hrest.
        cbn [fst snd] in H. inversion H; subst.
        eapply IH; [rewrite Hrest; reflexivity|]. eapply Htx; eassumption.
      * eapply IH; eassumption.
Qed.

Lemma run_preserves (I : State -> Prop) :
  (forall tx t s s' log, exec t tx s = Ok (s', log) -> I s -> I s') ->
  forall history s, I s -> I (run history s).
Proof.
  intros Hexec history. induction history as [|[t tx] history IH]; intros s Hs; [exact Hs|].
  cbn [run]. apply IH. unfold after.
  destruct (exec t tx s) as [[s' log]|] eqn:H; [|exact Hs]. eapply Hexec; eassumption.
Qed.

(** No transaction clears the subscriber of a stored record. *)
Lemma exec_keeps_blocked (planId : bytes32) (who : address) :
  who <> address0 ->
  forall tx t s s' log, exec t tx s = Ok (s', log) -> blocked planId who s -> blocked planId who s'.
Proof.
  intros Hwho. apply exec_preserves.
  - intros t msg_sender token amount interval duration gracePeriod apiUrl s id s' log H Hs.
    apply createPlan_Ok_inv in H as (_ & _ & _ & _ & -> & _). exact Hs.
  - intros call_value t msg_sender msg_value id autoRenew s s' log H Hs.
    apply subscribe_Ok_state in H. cbv zeta in H. subst s'. unfold blocked in *.
    rewrite subscription_of_set_plan, subscription_of_set_subscription.
    destruct (decide ((id, msg_sender) = (planId, who))) as [Heq|]; [|exact Hs].
    inversion Heq; subst. exact Hwho.
Qed.

(** No transaction lowers the plan counter. *)
Lemma exec_planCounter_monotone (c : uint256) :
  forall tx t s s' log, exec t tx s = Ok (s', log) -> c <= planCounter s -> c <= planCounter s'.
Proof.
  apply (exec_preserves (fun s => c <= planCounter s)).
  - intros t msg_sender token amount interval duration gracePeriod apiUrl s id s' log H Hs.
    apply createPlan_Ok_inv in H as (_ & _ & _ & _ & -> & _). cbn. lia.
  - intros call_value t msg_sender msg_value id autoRenew s s' log H Hs.
    apply subscribe_Ok_state in H. cbv zeta in H. subst s'. exact Hs.
Qed.

(** No transaction deactivates a plan. *)
Lemma exec_keeps_active (planId : bytes32) :
  forall tx t s s' log,
    exec t tx s = Ok (s', log) ->
    SubscriptionPlan.active (plan_of s planId) = true ->
    SubscriptionPlan.active (plan_of s' planId) = true.
Proof.
  apply (exec_preserves (fun s => SubscriptionPlan.active (plan_of s planId) = true)).
  - intros t msg_sender token amount interval duration gracePeriod apiUrl s id s' log H Hs.
    apply createPlan_Ok_inv in H as (_ & _ & _ & _ & -> & _).
    unfold plan_of in *. cbn [plans]. rewrite lookup_insert.
    destruct (decide (id = planId)); [reflexivity|exact Hs].
  - intros call_value t msg_sender msg_value id autoRenew s s' log H Hs.
    apply subscribe_Ok_state in H. cbv zeta in H. subst s'.
    rewrite plan_of_set_plan, plan_of_set_subscription.
    destruct (decide (id = planId)) as [->|]; exact Hs.
Qed.

(** When the plan is not paid in the native token, or the recipient makes
    no call back, [subscribe] writes to the storage it was called in. *)
Lemma storage_at_write_same
    (call_value : address -> uint256 -> State -> option (State * list Log))
    (planId : bytes32) (s : State) :
  SubscriptionPlan.token (plan_of s planId) <> address0 \/
  (forall recipient value s1 log1, call_value recipient value s = Some (s1, log1) -> s1 = s) ->
  storage_at_write call_value planId s = s.
Proof.
  unfold storage_at_write. intros [Htoken|Hplain].
  - apply Z.eqb_neq in Htoken. rewrite Htoken. reflexivity.
  - destruct (_ =? address0); [|reflexivity].
    destruct (call_value _ _ s) as [[s1 log1]|] eqn:Hcall; [|reflexivity].
    eapply Hplain. exact Hcall.
Qed.

(** After a successful [subscribe] of a caller, every later [subscribe] of
    the same caller for the same plan fails with AlreadySubscribed and
    changes nothing. *)
Lemma resubscribe_rejected (t : uint256) (msg_sender : address) (msg_value : uint256)
    (planId : bytes32) (autoRenew : bool) (recipient : Callee) (s s' : State) (log : list Log) :
  msg_sender <> address0 ->
  exec t (TxSubscribe msg_sender msg_value planId autoRenew recipient) s = Ok (s', log) ->
  forall history t' msg_value' autoRenew' recipient',
    exec t' (TxSubscribe msg_sender msg_value' planId autoRenew' recipient') (run history s')
      = Err AlreadySubscribed /\
    after t' (TxSubscribe msg_sender msg_value' planId autoRenew' recipient') (run history s')
      = run history s'.
Proof.
  intros Hsender H history t' msg_value' autoRenew' recipient'.
  assert (SubscriptionPlan.active (plan_of s' planId) = true) as Hactive.
  { eapply exec_keeps_active; [exact H|]. cbn [exec] in H.
    apply subscribe_Ok_inv in H as (Hactive & _). exact Hactive. }
  assert (blocked planId msg_sender s') as Hblocked.
  { cbn [exec] in H. apply subscribe_Ok_written in H as [Hsub _].
    unfold blocked. rewrite Hsub. exact Hsender. }
  assert (exec t' (TxSubscribe msg_sender msg_value' planId autoRenew' recipient')
            (run history s') = Err AlreadySubscribed) as Hsecond.
  { cbn [exec]. apply subscribe_duplicate.
    - apply (run_preserves (fun s0 => SubscriptionPlan.active (plan_of s0 planId) = true));
        [apply exec_keeps_active|exact Hactive].
    - apply run_preserves; [apply exec_keeps_blocked; exact Hsender|exact Hblocked]. }
  split; [exact Hsecond|]. unfold after. rewrite Hsecond. reflexivity.
Qed.

(** C5: subscribe requires the plan to be active and the stored record of
    the pair to have no subscriber: on an inactive plan it fails with
    PlanInactive, and a duplicate attempt fails with AlreadySubscribed and
    leaves the storage, hence the one Subscription of the pair, as it was;
    in particular every attempt that follows a successful subscribe of the
    same caller, after any history, does. On success the record of the pair
    has startTime = now, nextPaymentDue = now + interval and endTime = now +
    duration, and the plan's subscriber counter is one above its value when
    the record was written (its value before the call, unless the recipient
    of a native payment called back). The caller of a transaction is never
    the zero address. *)
Theorem subscribe_requires_and_records
    (call_value : address -> uint256 -> State -> option (State * list Log))
    (t : uint256) (msg_sender : address) (msg_value : uint256) (planId : bytes32)
    (autoRenew : bool) (s : State) :
  (SubscriptionPlan.active (plan_of s planId) = false ->
   subscribe call_value t msg_sender msg_value planId autoRenew s = Err PlanInactive) /\
  (SubscriptionPlan.active (plan_of s planId) = true ->
   Subscription.subscriber (subscription_of s planId msg_sender) <> address0 ->
   subscribe call_value t msg_sender msg_value planId autoRenew s = Err AlreadySubscribed /\
   forall recipient,
     exec t (TxSubscribe msg_sender msg_value planId autoRenew recipient) s
       = Err AlreadySubscribed /\
     after t (TxSubscribe msg_sender msg_value planId autoRenew recipient) s = s) /\
  (forall s' log,
     subscribe call_value t msg_sender msg_value planId autoRenew s = Ok (s', log) ->
     SubscriptionPlan.active (plan_of s planId) = true /\
     Subscription.subscriber (subscription_of s planId msg_sender) = address0 /\
     Subscription.subscriber (subscription_of s' planId msg_sender) = msg_sender /\
     Subscription.startTime (subscription_of s' planId msg_sender) = t /\
     Subscription.nextPaymentDue (subscription_of s' planId msg_sender) =
       t + SubscriptionPlan.interval (plan_of s planId) /\
     Subscription.endTime (subscription_of s' planId msg_sender) =
       t + SubscriptionPlan.duration (plan_of s planId) /\
     SubscriptionPlan.totalSubscribers (plan_of s' planId) =
       SubscriptionPlan.totalSubscribers
         (plan_of (storage_at_write call_value planId s) planId) + 1 /\
     (SubscriptionPlan.token (plan_of s planId) <> address0 \/
      (forall recipient value s1 log1,
         call_value recipient value s = Some (s1, log1) -> s1 = s) ->
      SubscriptionPlan.totalSubscribers (plan_of s' planId) =
        SubscriptionPlan.totalSubscribers (plan_of s planId) + 1)) /\
  (msg_sender <> address0 ->
   forall recipient s' log,
     exec t (TxSubscribe msg_sender msg_value planId autoRenew recipient) s = Ok (s', log) ->
     forall history t' msg_value' autoRenew' recipient',
       exec t' (TxSubscribe msg_sender msg_value' planId autoRenew' recipient')
         (run history s') = Err AlreadySubscribed /\
       after t' (TxSubscribe msg_sender msg_value' planId autoRenew' recipient')
         (run history s') = run history s').
Proof.
  split; [apply subscribe_inactive|]. split; [|split].
  - intros Hactive Hdup. split; [apply subscribe_duplicate; assumption|].
    intros recipient. unfold after. cbn [exec].
    rewrite subscribe_duplicate by assumption. split; reflexivity.
  - intros s' log H. pose proof (subscribe_Ok_written _ _ _ _ _ _ _ _ _ H) as [Hsub Htotal].
    apply subscribe_Ok_inv in H as (Hactive & Hfree & _).
    rewrite Hsub. repeat split; try assumption.
    intros Hsame. rewrite Htotal, (storage_at_write_same _ _ _ Hsame). reflexivity.
  - intros Hsender recipient s' log H. eapply resubscribe_rejected; eassumption.
Qed.

(** C6 (as amended): on a plan paid in the native token, a payment below
    the plan's amount is rejected with InsufficientPayment, a payment equal
    to or above it is never rejected as insufficient, and a call that is
    admitted has paid at least the amount, of which exactly the plan's amount
    is sent to the recipient and recorded as paid. *)
Theorem native_payment_at_least_amount
    (call_value : address -> uint256 -> State -> option (State * list Log))
    (t : uint256) (msg_sender : address) (msg_value : uint256) (planId : bytes32)
    (autoRenew : bool) (s : State) :
  SubscriptionPlan.token (plan_of s planId) = address0 ->
  (SubscriptionPlan.active (plan_of s planId) = true ->
   Subscription.subscriber (subscription_of s planId msg_sender) = address0 ->
   msg_value < SubscriptionPlan.amount (plan_of s planId) ->
   subscribe call_value t msg_sender msg_value planId autoRenew s = Err InsufficientPayment) /\
  (SubscriptionPlan.amount (plan_of s planId) <= msg_value ->
   subscribe call_value t msg_sender msg_value planId autoRenew s <> Err InsufficientPayment) /\
  (forall s' log,
     subscribe call_value t msg_sender msg_value planId autoRenew s = Ok (s', log) ->
     SubscriptionPlan.amount (plan_of s planId) <= msg_value /\
     Subscription.totalPaid (subscription_of s' planId msg_sender) =
       SubscriptionPlan.amount (plan_of s planId) /\
     exists log0,
       log = ValueSent (SubscriptionPlan.paymentRecipient (plan_of s planId))
               (SubscriptionPlan.amount (plan_of s planId)) :: log0).
Proof.
  intros Hnative. split; [|split].
  - intros Hactive Hfree Hlow. unfold subscribe.
    rewrite Hactive, Hfree, Hnative. cbn [require bind Z.eqb address0].
    apply Z.leb_gt in Hlow. rewrite Hlow. reflexivity.
  - intros Hpaid. unfold subscribe. rewrite Hnative. cbn [Z.eqb address0].
    apply Z.leb_le in Hpaid. rewrite Hpaid.
    destruct (SubscriptionPlan.active (plan_of s planId)); [|discriminate].
    destruct (Subscription.subscriber (subscription_of s planId msg_sender) =? address0);
      [|discriminate].
    cbn [require bind].
    destruct (call_value _ _ s) as [[s1 log0]|]; [|discriminate]. cbn [bind fst snd].
    destruct (checked_add t (SubscriptionPlan.interval (plan_of s planId)))
      as [due|f] eqn:Hdue; [|apply checked_add_Err in Hdue as ->; discriminate].
    cbn [bind].
    destruct (checked_add t (SubscriptionPlan.duration (plan_of s planId)))
      as [ends|f] eqn:Hends; [|apply checked_add_Err in Hends as ->; discriminate].
    cbn [bind]. rewrite plan_of_set_subscription.
    destruct (checked_add (SubscriptionPlan.totalSubscribers (plan_of s1 planId)) 1)
      as [n|f] eqn:Hn; [|apply checked_add_Err in Hn as ->; discriminate].
    discriminate.
  - intros s' log H. pose proof (subscribe_Ok_written _ _ _ _ _ _ _ _ _ H) as [Hsub _].
    apply subscribe_Ok_inv in H as (_ & _ & s1 & log1 & Hpaid & _ & _ & _ & _ & ->).
    rewrite Hsub. destruct Hpaid as [(_ & Hpaid & log0 & _ & ->)|(Htoken & _)];
      [|contradiction].
    repeat split; [assumption|]. eexists. reflexivity.
Qed.

(** C9: on a plan whose token is not the native designator, subscribe does
    not look at the value sent with the call and never calls the recipient
    (its result is the same for every value and every recipient behaviour),
    so it succeeds with no value at all whenever the plan is active, the
    caller is not yet subscribed and no time or counter overflows; when it
    succeeds it sends no value, its log being the two events alone, and the
    record it writes has totalPaid equal to the plan's full amount. *)
Theorem token_plan_subscribes_unpaid
    (call_value : address -> uint256 -> State -> option (State * list Log))
    (t : uint256) (msg_sender : address) (msg_value : uint256) (planId : bytes32)
    (autoRenew : bool) (s : State) :
  SubscriptionPlan.token (plan_of s planId) <> address0 ->
  (forall call_value' msg_value',
     subscribe call_value' t msg_sender msg_value' planId autoRenew s =
     subscribe call_value t msg_sender msg_value planId autoRenew s) /\
  (SubscriptionPlan.active (plan_of s planId) = true ->
   Subscription.subscriber (subscription_of s planId msg_sender) = address0 ->
   t + SubscriptionPlan.interval (plan_of s planId) <= MAX_UINT256 ->
   t + SubscriptionPlan.duration (plan_of s planId) <= MAX_UINT256 ->
   SubscriptionPlan.totalSubscribers (plan_of s planId) + 1 <= MAX_UINT256 ->
   exists s', subscribe call_value t msg_sender 0 planId autoRenew s
              = Ok (s', [SubscriptionCreated planId msg_sender;
                         PaymentProcessed planId msg_sender
                           (SubscriptionPlan.amount (plan_of s planId))])) /\
  (forall s' log,
     subscribe call_value t msg_sender msg_value planId autoRenew s = Ok (s', log) ->
     log = [SubscriptionCreated planId msg_sender;
            PaymentProcessed planId msg_sender (SubscriptionPlan.amount (plan_of s planId))] /\
     existsb is_ValueSent log = false /\
     Subscription.totalPaid (subscription_of s' planId msg_sender) =
       SubscriptionPlan.amount (plan_of s planId)).
Proof.
  intros Htoken. split; [|split].
  - intros call_value' msg_value'. unfold subscribe.
    apply Z.eqb_neq in Htoken. rewrite Htoken. reflexivity.
  - intros Hactive Hfree Hdue Hends Hcount. unfold subscribe.
    apply Z.eqb_neq in Htoken. rewrite Hactive, Hfree, Htoken.
    cbn [require bind Z.eqb address0 fst snd].
    rewrite !checked_add_fits by assumption. cbn [bind].
    rewrite plan_of_set_subscription, checked_add_fits by assumption. cbn [bind app].
    eexists. reflexivity.
  - intros s' log H. pose proof (subscribe_Ok_written _ _ _ _ _ _ _ _ _ H) as [Hsub _].
    apply subscribe_Ok_inv in H as (_ & _ & s1 & log1 & Hpaid & _ & _ & _ & _ & ->).
    rewrite Hsub. destruct Hpaid as [(Hnative & _)|(_ & _ & ->)]; [contradiction|].
    repeat split.
Qed.

(** C10: once subscribe has succeeded for a pair (planId, subscriber), no
    later subscribe for the pair succeeds, after any history of transactions
    and of calls made from inside them. The duplicate check reads the
    subscriber field of the stored record alone, not its active flag, and no
    operation clears that field: in every storage whose record for the pair
    has a subscriber, whatever the rest of the record, the pair stays blocked
    and each subscribe for it fails, before any payment is asked for. The
    subscriber, being the caller of a transaction, is not the zero address. *)
Theorem subscribed_pair_stays_blocked (planId : bytes32) (who : address) :
  who <> address0 ->
  (forall t msg_value autoRenew recipient s s' log,
     exec t (TxSubscribe who msg_value planId autoRenew recipient) s = Ok (s', log) ->
     blocked planId who s' /\
     forall history t' msg_value' autoRenew' recipient' s'' log',
       exec t' (TxSubscribe who msg_value' planId autoRenew' recipient') (run history s')
         <> Ok (s'', log')) /\
  (forall s history,
     blocked planId who s ->
     blocked planId who (run history s) /\
     forall t msg_value autoRenew recipient,
       exec t (TxSubscribe who msg_value planId autoRenew recipient) (run history s)
         = Err PlanInactive \/
       exec t (TxSubscribe who msg_value planId autoRenew recipient) (run history s)
         = Err AlreadySubscribed).
Proof.
  intros Hwho. split.
  - intros t msg_value autoRenew recipient s s' log H. split.
    + cbn [exec] in H. apply subscribe_Ok_written in H as [Hsub _].
      unfold blocked. rewrite Hsub. exact Hwho.
    + intros history t' msg_value' autoRenew' recipient' s'' log'.
      destruct (resubscribe_rejected _ _ _ _ _ _ _ _ _ Hwho H history t' msg_value'
                  autoRenew' recipient') as [-> _]. discriminate.
  - intros s history Hs.
    assert (blocked planId who (run history s)) as Hlater
      by (apply run_preserves; [apply exec_keeps_blocked; exact Hwho|exact Hs]).
    split; [exact Hlater|]. intros t msg_value autoRenew recipient. cbn [exec].
    destruct (SubscriptionPlan.active (plan_of (run history s) planId)) eqn:Hactive.
    + right. apply subscribe_duplicate; assumption.
    + left. apply subscribe_inactive; assumption.
Qed.

(** C7: createPlan fails when amount = 0 or interval = 0. With amount > 0
    and interval > 0 (and a plan counter that can still be incremented) it
    increments the counter, derives the identifier from the caller, the
    incremented counter and the block's time, stores under it an active plan
    created by the caller, and appends the identifier to the list of plans.
    The identifier is derived from fresh input: every later createPlan that
    succeeds uses a larger counter and so hashes a byte string different
    from this one. *)
Theorem createPlan_stores_active_plan (t : uint256) (msg_sender token : address)
    (amount interval duration gracePeriod : uint256) (apiUrl : string) (s : State) :
  ((amount = 0 \/ interval = 0) ->
   exists reason,
     createPlan t msg_sender token amount interval duration gracePeriod apiUrl s
       = Err (Revert reason)) /\
  (0 < amount -> 0 < interval -> 0 <= planCounter s < MAX_UINT256 ->
   let input := abi_encodePacked_address_uint256_uint256 msg_sender (planCounter s + 1) t in
   let planId := keccak256 input in
   exists s',
     createPlan t msg_sender token amount interval duration gracePeriod apiUrl s
       = Ok (planId, s', [PlanCreated planId msg_sender token amount]) /\
     planCounter s' = planCounter s + 1 /\
     plan_of s' planId =
       SubscriptionPlan.mk token amount interval duration gracePeriod true msg_sender
         msg_sender apiUrl 0 /\
     allPlans s' = allPlans s ++ [planId] /\
     forall history t2 msg_sender2 token2 amount2 interval2 duration2 gracePeriod2 apiUrl2
            planId2 s2 log2,
       createPlan t2 msg_sender2 token2 amount2 interval2 duration2 gracePeriod2 apiUrl2
         (run history s') = Ok (planId2, s2, log2) ->
       planCounter s + 1 < planCounter (run history s') + 1 /\
       planId2 =
         keccak256 (abi_encodePacked_address_uint256_uint256 msg_sender2
                      (planCounter (run history s') + 1) t2) /\
       abi_encodePacked_address_uint256_uint256 msg_sender2
         (planCounter (run history s') + 1) t2 <> input).
Proof.
  split.
  - intros [-> | ->]; unfold createPlan.
    + eexists. reflexivity.
    + destruct (0 <? amount); eexists; reflexivity.
  - intros Hamount Hinterval Hcounter input planId.
    eexists. split; [|split; [|split; [|split]]].
    + unfold createPlan. apply Z.ltb_lt in Hamount, Hinterval.
      rewrite Hamount, Hinterval. cbn [require bind].
      rewrite checked_add_fits by lia. cbn [bind]. reflexivity.
    + reflexivity.
    + unfold plan_of. cbn [plans]. rewrite lookup_insert_eq. reflexivity.
    + reflexivity.
    + intros history t2 msg_sender2 token2 amount2 interval2 duration2 gracePeriod2 apiUrl2
        planId2 s2 log2 H.
      apply createPlan_Ok_inv in H as (_ & _ & Hfits & -> & _).
      match goal with
      | |- context [planCounter (run history ?st)] =>
          assert (planCounter s + 1 <= planCounter (run history st)) as Hmono
            by (apply (run_preserves (fun s0 => planCounter s + 1 <= planCounter s0));
                [apply exec_planCounter_monotone|cbn; lia])
      end.
      split; [lia|]. split; [reflexivity|]. intros Heq.
      apply abi_encodePacked_inj_counter in Heq; unfold MAX_UINT256 in *; lia.
Qed.

End SubscriptionManagerProperties.

(** ** The recurring charge *)

Section SubscriptionLedgerProperties.
Import SubscriptionManager SubscriptionLedger.

(** One attempt keeps the plan and the start time, and moves the due date by
    the plan's interval exactly when it is charged. *)
Lemma processPayment_due (now : uint256) (planId : bytes32) (who : address)
    (settlementRef : string) (s : State) :
  plan_of (snd (processPayment now planId who settlementRef s)) planId = plan_of s planId /\
  Subscription.startTime
    (subscription_of (snd (processPayment now planId who settlementRef s)) planId who) =
    Subscription.startTime (subscription_of s planId who) /\
  Subscription.nextPaymentDue
    (subscription_of (snd (processPayment now planId who settlementRef s)) planId who) =
    Subscription.nextPaymentDue (subscription_of s planId who) +
    (if is_Charged (fst (processPayment now planId who settlementRef s))
     then SubscriptionPlan.interval (plan_of s planId) else 0).
Proof.
  unfold processPayment.
  destruct (Subscription.active (subscription_of s planId who)); cbn [negb];
    [|cbn; repeat split; lia].
  destruct (now <? _); [cbn; repeat split; lia|].
  destruct (_ <? now);
    [cbn [fst snd is_Charged]; rewrite plan_of_set_subscription,
       subscription_of_set_subscription;
     destruct (decide ((planId, who) = (planId, who))); [|congruence];
     cbn; repeat split; lia|].
  destruct (_ <? now); [destruct (Subscription.autoRenew _)|];
    cbn [fst snd is_Charged];
    rewrite ?plan_of_set_subscription, ?subscription_of_set_subscription;
    try (destruct (decide ((planId, who) = (planId, who))); [|congruence]);
    cbn; repeat split; lia.
Qed.

Lemma attempts_due (times : list uint256) (planId : bytes32) (who : address) (s : State) :
  plan_of (snd (attempts times planId who s)) planId = plan_of s planId /\
  Subscription.startTime (subscription_of (snd (attempts times planId who s)) planId who) =
    Subscription.startTime (subscription_of s planId who) /\
  Subscription.nextPaymentDue (subscription_of (snd (attempts times planId who s)) planId who) =
    Subscription.nextPaymentDue (subscription_of s planId who) +
    Z.of_nat (fst (attempts times planId who s)) * SubscriptionPlan.interval (plan_of s planId).
Proof.
  revert s. induction times as [|now times IH]; intros s.
  - cbn. repeat split; lia.
  - cbn [attempts fst snd].
    destruct (processPayment_due now planId who EmptyString s) as (Hplan & Hstart & Hdue).
    destruct (IH (snd (processPayment now planId who EmptyString s)))
      as (IHplan & IHstart & IHdue).
    rewrite IHplan, IHstart, IHdue, Hplan, Hstart, Hdue.
    repeat split. destruct (is_Charged _); lia.
Qed.

(** C8 (as amended): the subscription that subscribe creates at startTime
    has nextPaymentDue = startTime + interval, and each charged processPayment
    adds the interval to the scheduled date; so after any sequence of
    attempts, made at any times, of which N are charged, nextPaymentDue =
    startTime + (N + 1) × interval. *)
Theorem nextPaymentDue_after_payments
    (call_value : address -> uint256 -> State -> option (State * list Log))
    (t0 : uint256) (who : address) (msg_value : uint256) (planId : bytes32)
    (autoRenew : bool) (s s1 : State) (log : list Log) (times : list uint256) :
  subscribe call_value t0 who msg_value planId autoRenew s = Ok (s1, log) ->
  SubscriptionPlan.interval (plan_of s1 planId) = SubscriptionPlan.interval (plan_of s planId) ->
  Subscription.startTime (subscription_of (snd (attempts times planId who s1)) planId who) = t0
  /\
  Subscription.nextPaymentDue (subscription_of (snd (attempts times planId who s1)) planId who) =
    t0 + (Z.of_nat (fst (attempts times planId who s1)) + 1)
         * SubscriptionPlan.interval (plan_of s planId).
Proof.
  intros Hsub Hinterval.
  destruct (attempts_due times planId who s1) as (_ & Hstart & Hdue).
  apply subscribe_Ok_written in Hsub as [Hrecord _].
  rewrite Hstart, Hdue, Hrecord, Hinterval. cbn. split; lia.
Qed.

End SubscriptionLedgerProperties.

(** *** Instances on the sample storage *)

Section SubscriptionManagerExamples.
Import SubscriptionManager SubscriptionLedger Samples.
#[local] Existing Instance sample_primitives.

Lemma bob_is_not_zero : bob <> address0.
Proof. vm_compute. discriminate. Qed.

Lemma bob_subscribes :
  subscribe plain_recipient T0 bob 100 native_id true two_plans = Ok (bob_subscribed, bob_log).
Proof. vm_compute. reflexivity. Qed.

Lemma bob_subscribes_exec :
  exec T0 (TxSubscribe bob 100 native_id true (Accepts [])) two_plans
  = Ok (bob_subscribed, bob_log).
Proof. vm_compute. reflexivity. Qed.

Lemma native_plan_is_native : SubscriptionPlan.token (plan_of two_plans native_id) = address0.
Proof. vm_compute. reflexivity. Qed.

(** [bob] subscribes at [T0]; his second attempt, a day later, is refused
    and changes nothing. *)
Lemma subscribe_requires_and_records_witness :
  (SubscriptionPlan.active (plan_of two_plans native_id) = true /\
   Subscription.subscriber (subscription_of two_plans native_id bob) = address0 /\
   Subscription.subscriber (subscription_of bob_subscribed native_id bob) = bob /\
   Subscription.startTime (subscription_of bob_subscribed native_id bob) = T0 /\
   Subscription.nextPaymentDue (subscription_of bob_subscribed native_id bob) =
     T0 + SubscriptionPlan.interval (plan_of two_plans native_id) /\
   Subscription.endTime (subscription_of bob_subscribed native_id bob) =
     T0 + SubscriptionPlan.duration (plan_of two_plans native_id) /\
   SubscriptionPlan.totalSubscribers (plan_of bob_subscribed native_id) =
     SubscriptionPlan.totalSubscribers
       (plan_of (storage_at_write plain_recipient native_id two_plans) native_id) + 1 /\
   (SubscriptionPlan.token (plan_of two_plans native_id) <> address0 \/
    (forall recipient value s1 log1,
       plain_recipient recipient value two_plans = Some (s1, log1) -> s1 = two_plans) ->
    SubscriptionPlan.totalSubscribers (plan_of bob_subscribed native_id) =
      SubscriptionPlan.totalSubscribers (plan_of two_plans native_id) + 1)) /\
  (exec (T0 + day) (TxSubscribe bob 100 native_id true (Accepts [])) (run [] bob_subscribed)
     = Err AlreadySubscribed /\
   after (T0 + day) (TxSubscribe bob 100 native_id true (Accepts [])) (run [] bob_subscribed)
     = run [] bob_subscribed).
Proof.
  split.
  - exact (proj1 (proj2 (proj2 (subscribe_requires_and_records plain_recipient T0 bob 100
                                  native_id true two_plans)))
             bob_subscribed bob_log bob_subscribes).
  - exact (proj2 (proj2 (proj2 (subscribe_requires_and_records plain_recipient T0 bob 100
                                  native_id true two_plans)))
             bob_is_not_zero (Accepts []) bob_subscribed bob_log bob_subscribes_exec
             [] (T0 + day) 100 true (Accepts [])).
Defined.

(** C6, as stated, fails: a payment of 101 for a plan whose amount is 100
    is not rejected with InsufficientPayment; it is admitted, and leaves what
    a payment of 100 leaves. *)
Lemma excess_payment_admitted :
  SubscriptionPlan.token (plan_of two_plans native_id) = address0 /\
  SubscriptionPlan.amount (plan_of two_plans native_id) = 100 /\
  subscribe plain_recipient T0 bob 101 native_id true two_plans = Ok (bob_subscribed, bob_log) /\
  subscribe plain_recipient T0 bob 101 native_id true two_plans <> Err InsufficientPayment.
Proof.
  split; [exact native_plan_is_native|]. split; [vm_compute; reflexivity|].
  split; [vm_compute; reflexivity|]. vm_compute. discriminate.
Qed.

Lemma native_plan_is_active : SubscriptionPlan.active (plan_of two_plans native_id) = true.
Proof. vm_compute. reflexivity. Qed.

Lemma bob_is_new : Subscription.subscriber (subscription_of two_plans native_id bob) = address0.
Proof. vm_compute. reflexivity. Qed.

Lemma ninety_nine_is_short : 99 < SubscriptionPlan.amount (plan_of two_plans native_id).
Proof. vm_compute. reflexivity. Qed.

(** A payment of 99 for the plan of 100 is rejected; the admitted payment of
    [bob] sent exactly 100 to [alice]. *)
Lemma native_payment_at_least_amount_witness :
  subscribe plain_recipient T0 bob 99 native_id true two_plans = Err InsufficientPayment /\
  (SubscriptionPlan.amount (plan_of two_plans native_id) <= 100 /\
   Subscription.totalPaid (subscription_of bob_subscribed native_id bob) =
     SubscriptionPlan.amount (plan_of two_plans native_id) /\
   exists log0,
     bob_log = ValueSent (SubscriptionPlan.paymentRecipient (plan_of two_plans native_id))
                 (SubscriptionPlan.amount (plan_of two_plans native_id)) :: log0).
Proof.
  split.
  - exact (proj1 (native_payment_at_least_amount plain_recipient T0 bob 99 native_id true
                    two_plans native_plan_is_native)
             native_plan_is_active bob_is_new ninety_nine_is_short).
  - exact (proj2 (proj2 (native_payment_at_least_amount plain_recipient T0 bob 100 native_id
                           true two_plans native_plan_is_native))
             bob_subscribed bob_log bob_subscribes).
Defined.

Lemma token_plan_is_not_native :
  SubscriptionPlan.token (plan_of two_plans token_id) <> address0.
Proof. vm_compute. discriminate. Qed.

Lemma bob_subscribes_unpaid :
  subscribe plain_recipient T0 bob 0 token_id false two_plans
  = Ok (bob_unpaid, [SubscriptionCreated token_id bob; PaymentProcessed token_id bob 100]).
Proof. vm_compute. reflexivity. Qed.

(** [bob] subscribes to the plan paid in [usdc] sending no value. *)
Lemma token_plan_subscribes_unpaid_witness :
  [SubscriptionCreated token_id bob; PaymentProcessed token_id bob 100] =
  [SubscriptionCreated token_id bob;
   PaymentProcessed token_id bob (SubscriptionPlan.amount (plan_of two_plans token_id))] /\
  existsb is_ValueSent
    [SubscriptionCreated token_id bob; PaymentProcessed token_id bob 100] = false /\
  Subscription.totalPaid (subscription_of bob_unpaid token_id bob) =
    SubscriptionPlan.amount (plan_of two_plans token_id).
Proof.
  exact (proj2 (proj2 (token_plan_subscribes_unpaid plain_recipient T0 bob 0 token_id false
                         two_plans token_plan_is_not_native))
           bob_unpaid [SubscriptionCreated token_id bob; PaymentProcessed token_id bob 100]
           bob_subscribes_unpaid).
Defined.

(** After [bob] has subscribed, a history in which [alice] creates another
    plan and subscribes to the first one, her own contract calling back to
    subscribe once more, leaves [bob] blocked. *)
Lemma subscribed_pair_stays_blocked_witness :
  blocked native_id bob bob_subscribed /\
  forall s'' log',
    exec (T0 + 2 * day) (TxSubscribe bob 100 native_id false (Accepts []))
      (run [(T0 + day, TxCreatePlan alice usdc 5 day day 0 "https://api.example.com/v2");
            (T0 + day, TxSubscribe alice 100 native_id false
                         (Accepts [TxSubscribe alice 0 native_id true Refuses]))]
         bob_subscribed)
    <> Ok (s'', log').
Proof.
  destruct (proj1 (subscribed_pair_stays_blocked native_id bob bob_is_not_zero)
              T0 100 true (Accepts []) two_plans bob_subscribed bob_log bob_subscribes_exec)
    as [Hblocked Hlater].
  split; [exact Hblocked|].
  exact (Hlater [(T0 + day, TxCreatePlan alice usdc 5 day day 0 "https://api.example.com/v2");
                 (T0 + day, TxSubscribe alice 100 native_id false
                              (Accepts [TxSubscribe alice 0 native_id true Refuses]))]
           (T0 + 2 * day) 100 false (Accepts [])).
Defined.

Lemma fresh_counter : 0 <= planCounter init < MAX_UINT256.
Proof. vm_compute. split; [discriminate|reflexivity]. Qed.

Lemma createPlan_stores_active_plan_witness :
  exists s',
    createPlan T0 alice address0 100 (30 * day) (365 * day) (3 * day) "https://api.example.com"
      init
    = Ok (keccak256 (abi_encodePacked_address_uint256_uint256 alice (planCounter init + 1) T0),
          s',
          [PlanCreated
             (keccak256
                (abi_encodePacked_address_uint256_uint256 alice (planCounter init + 1) T0))
             alice address0 100]) /\
    planCounter s' = planCounter init + 1 /\
    plan_of s'
      (keccak256 (abi_encodePacked_address_uint256_uint256 alice (planCounter init + 1) T0))
    = SubscriptionPlan.mk address0 100 (30 * day) (365 * day) (3 * day) true alice alice
        "https://api.example.com" 0.
Proof.
  destruct (proj2 (createPlan_stores_active_plan T0 alice address0 100 (30 * day) (365 * day)
                     (3 * day) "https://api.example.com" init))
    as (s' & Hcall & Hcounter & Hplan & _).
  - reflexivity.
  - reflexivity.
  - exact fresh_counter.
  - exists s'. split; [exact Hcall|]. split; [exact Hcounter|exact Hplan].
Defined.

Lemma interval_unchanged :
  SubscriptionPlan.interval (plan_of bob_subscribed native_id) =
  SubscriptionPlan.interval (plan_of two_plans native_id).
Proof. vm_compute. reflexivity. Qed.

(** Scenario A: after subscribing at [T0], [bob] is charged on day 31 and on
    day 61, both within grace; an attempt on day 1 is too early. *)
Lemma two_of_three_charged :
  fst (attempts [T0 + day; T0 + 31 * day; T0 + 61 * day] native_id bob bob_subscribed) = 2%nat.
Proof. vm_compute. reflexivity. Qed.

Lemma nextPaymentDue_after_payments_witness :
  Subscription.startTime
    (subscription_of
       (snd (attempts [T0 + day; T0 + 31 * day; T0 + 61 * day] native_id bob bob_subscribed))
       native_id bob) = T0 /\
  Subscription.nextPaymentDue
    (subscription_of
       (snd (attempts [T0 + day; T0 + 31 * day; T0 + 61 * day] native_id bob bob_subscribed))
       native_id bob)
  = T0 + (Z.of_nat
            (fst (attempts [T0 + day; T0 + 31 * day; T0 + 61 * day] native_id bob
                    bob_subscribed)) + 1)
         * SubscriptionPlan.interval (plan_of two_plans native_id).
Proof.
  exact (nextPaymentDue_after_payments plain_recipient T0 bob 100 native_id true two_plans
           bob_subscribed bob_log [T0 + day; T0 + 31 * day; T0 + 61 * day]
           bob_subscribes interval_unchanged).
Defined.

(** C8, as stated, fails: with no payment yet the due date is already one
    interval after the start, and after the one charge of Scenario A it is
    two intervals after the start, not one. *)
Lemma nextPaymentDue_not_N_intervals :
  Subscription.startTime (subscription_of bob_subscribed native_id bob) = T0 /\
  SubscriptionPlan.interval (plan_of bob_subscribed native_id) = 30 * day /\
  Subscription.nextPaymentDue (subscription_of bob_subscribed native_id bob) <> T0 + 0 * (30 * day)
  /\
  fst (attempts [T0 + 31 * day] native_id bob bob_subscribed) = 1%nat /\
  Subscription.nextPaymentDue
    (subscription_of (snd (attempts [T0 + 31 * day] native_id bob bob_subscribed)) native_id bob)
    = T0 + 60 * day /\
  Subscription.nextPaymentDue
    (subscription_of (snd (attempts [T0 + 31 * day] native_id bob bob_subscribed)) native_id bob)
    <> T0 + 1 * (30 * day).
Proof.
  split; [vm_compute; reflexivity|]. split; [vm_compute; reflexivity|].
  split; [vm_compute; discriminate|]. split; [vm_compute; reflexivity|].
  split; [vm_compute; reflexivity|]. vm_compute. discriminate.
Qed.

End SubscriptionManagerExamples.

(** * Further properties of the contracts *)

(** ** EIP712Payment: the other verifications and the nonce ledger *)

Section EIP712PaymentMore.
Context {prim : Primitives}.
Import EIP712Payment.

(** What every verification does, in the order of its code: the deadline,
    then the nonce, then the signer recovered from the intent's digest. *)
Lemma verify_guards (s : State) (t : uint256) (i : Intent) (signature : bytes) :
  verify s t i signature =
  if t <=? intent_deadline i then
    if intent_nonce i =? nonce_of s (intent_signer i) then
      let* signer := recover (intent_digest i) signature in
      Ok (signer =? intent_signer i)
    else Err NonceMismatch
  else Err DeadlineExpired.
Proof.
  destruct i; cbn [verify intent_deadline intent_nonce intent_signer];
    unfold verifyPaymentAuthorization, verifySubscriptionAuthorization,
      verifyRecurringPayment;
    (destruct (t <=? _); [|reflexivity]);
    (destruct (_ =? nonce_of _ _); reflexivity).
Qed.

(** The outcome of a verification once both guards have passed. *)
Lemma recover_outcome (digest : bytes32) (signature : bytes) (claimed : address) :
  ((let* signer := recover digest signature in Ok (signer =? claimed)) = Ok true
   <-> recover digest signature = Ok claimed) /\
  ((let* signer := recover digest signature in Ok (signer =? claimed)) = Ok false
   <-> exists other, recover digest signature = Ok other /\ other <> claimed) /\
  (forall f, (let* signer := recover digest signature in Ok (signer =? claimed)) = Err f
             <-> recover digest signature = Err f).
Proof.
  destruct (recover digest signature) as [signer|f0]; cbn [bind].
  - destruct (Z.eqb_spec signer claimed) as [->|Hne].
    + split; [split; reflexivity|]. split.
      * split; [discriminate|]. intros (other & Heq & Hother). congruence.
      * intros f. split; discriminate.
    + split; [split; intros H; inversion H; congruence|]. split.
      * split; [|reflexivity]. intros _. exists signer. split; [reflexivity|exact Hne].
      * intros f. split; discriminate.
  - split; [split; discriminate|]. split.
    + split; [discriminate|]. intros (other & Heq & _). discriminate.
    + intros f. split; intros H; inversion H; reflexivity.
Qed.

(** X1: verifySubscriptionAuthorization fails with DeadlineExpired after the
    deadline whatever else holds, with NonceMismatch when the deadline holds
    but the nonce is not the subscriber's stored one, and otherwise returns
    whether the signer recovered from the typed-data hash of
    buildSubscriptionAuthorizationHash is the subscriber: true for the
    subscriber, false for another signer, the failure of recover when the
    signature is malformed. *)
Theorem verifySubscriptionAuthorization_outcome (s : State) (t : uint256)
    (planId : bytes32) (subscriber : address) (amount deadline nonce : uint256)
    (autoRenew : bool) (signature : bytes) :
  let result :=
    verifySubscriptionAuthorization s t planId subscriber amount deadline nonce autoRenew
      signature in
  let digest :=
    getTypedDataHash
      (buildSubscriptionAuthorizationHash planId subscriber amount deadline nonce autoRenew) in
  (deadline < t -> result = Err DeadlineExpired) /\
  (t <= deadline -> nonce <> getNonce s subscriber -> result = Err NonceMismatch) /\
  (t <= deadline -> nonce = getNonce s subscriber ->
   (result = Ok true <-> recover digest signature = Ok subscriber) /\
   (result = Ok false <->
    exists other, recover digest signature = Ok other /\ other <> subscriber) /\
   (forall f, result = Err f <-> recover digest signature = Err f)).
Proof.
  intros result digest.
  pose proof (verify_guards s t
                (SubscriptionAuthorization planId subscriber amount deadline nonce autoRenew)
                signature) as Hg.
  cbn [verify intent_deadline intent_nonce intent_signer] in Hg.
  change (intent_digest
            (SubscriptionAuthorization planId subscriber amount deadline nonce autoRenew))
    with digest in Hg.
  fold result in Hg. unfold getNonce. split; [|split].
  - intros Ht. apply Z.leb_gt in Ht. rewrite Hg, Ht. reflexivity.
  - intros Ht Hn. apply Z.leb_le in Ht. apply Z.eqb_neq in Hn. rewrite Hg, Ht, Hn.
    reflexivity.
  - intros Ht Hn. apply Z.leb_le in Ht. apply Z.eqb_eq in Hn. rewrite Hg, Ht, Hn.
    apply recover_outcome.
Qed.

(** X2: verifyRecurringPayment has the same three stages over its own
    layout (type hash, planId, subscriber, amount, paymentNumber, deadline,
    nonce): DeadlineExpired first, then NonceMismatch, then the comparison of
    the recovered signer with the subscriber. *)
Theorem verifyRecurringPayment_outcome (s : State) (t : uint256)
    (planId : bytes32) (subscriber : address) (amount paymentNumber deadline nonce : uint256)
    (signature : bytes) :
  let result :=
    verifyRecurringPayment s t planId subscriber amount paymentNumber deadline nonce
      signature in
  let digest :=
    getTypedDataHash
      (keccak256 (abi_encode [RECURRING_PAYMENT_TYPEHASH; planId; subscriber; amount;
                              paymentNumber; deadline; nonce])) in
  (deadline < t -> result = Err DeadlineExpired) /\
  (t <= deadline -> nonce <> getNonce s subscriber -> result = Err NonceMismatch) /\
  (t <= deadline -> nonce = getNonce s subscriber ->
   (result = Ok true <-> recover digest signature = Ok subscriber) /\
   (result = Ok false <->
    exists other, recover digest signature = Ok other /\ other <> subscriber) /\
   (forall f, result = Err f <-> recover digest signature = Err f)).
Proof.
  intros result digest.
  pose proof (verify_guards s t
                (RecurringPayment planId subscriber amount paymentNumber deadline nonce)
                signature) as Hg.
  cbn [verify intent_deadline intent_nonce intent_signer] in Hg.
  change (intent_digest
            (RecurringPayment planId subscriber amount paymentNumber deadline nonce))
    with digest in Hg.
  fold result in Hg. unfold getNonce. split; [|split].
  - intros Ht. apply Z.leb_gt in Ht. rewrite Hg, Ht. reflexivity.
  - intros Ht Hn. apply Z.leb_le in Ht. apply Z.eqb_neq in Hn. rewrite Hg, Ht, Hn.
    reflexivity.
  - intros Ht Hn. apply Z.leb_le in Ht. apply Z.eqb_eq in Hn. rewrite Hg, Ht, Hn.
    apply recover_outcome.
Qed.

(** X3: _incrementNonce advances the stored nonce of the user by exactly
    one, leaves every other user's nonce as it was and emits the new value;
    at the largest uint256 it panics instead of wrapping to zero. *)
Theorem incrementNonce_advances_by_one (user : address) (s : State) :
  (getNonce s user < MAX_UINT256 ->
   exists s',
     _incrementNonce user s = Ok (s', [NonceIncremented user (getNonce s user + 1)]) /\
     getNonce s' user = getNonce s user + 1 /\
     forall other, other <> user -> getNonce s' other = getNonce s other) /\
  (MAX_UINT256 <= getNonce s user -> _incrementNonce user s = Err (Panic 17)).
Proof.
  unfold getNonce. split.
  - intros Hlt. unfold _incrementNonce. rewrite checked_add_fits by lia. cbn [bind].
    eexists. split; [|split].
    + rewrite nonce_of_insert. destruct (decide (user = user)); [reflexivity|congruence].
    + rewrite nonce_of_insert. destruct (decide (user = user)); [reflexivity|congruence].
    + intros other Hne. rewrite nonce_of_insert.
      destruct (decide (user = other)); [congruence|reflexivity].
  - intros Hmax. unfold _incrementNonce, checked_add.
    destruct (Z.leb_spec (nonce_of s user + 1) MAX_UINT256); [lia|reflexivity].
Qed.

(** X4: the stored nonce of a user counts the increments made for that
    user: after any run it is its value before the run plus the number of
    _incrementNonce(user) in the run, as long as that sum fits a uint256;
    verifications, nonce reads and increments for other users do not move
    it. *)
Theorem nonce_counts_increments (ops : list (uint256 * Op)) (s : State) (user : address) :
  getNonce s user + Z.of_nat (increments_of user ops) <= MAX_UINT256 ->
  getNonce (run ops s) user = getNonce s user + Z.of_nat (increments_of user ops).
Proof.
  unfold getNonce. revert s.
  induction ops as [|[t op] ops IH]; intros s Hfits; [cbn; lia|].
  destruct op as [i signature|who|who]; cbn [run step snd increments_of] in *;
    try (apply IH; exact Hfits).
  destruct (decide (who = user)) as [->|Hne].
  - destruct (_incrementNonce user s) as [[s' events]|f] eqn:Hinc.
    + apply _incrementNonce_Ok in Hinc as (Hsucc & _ & _). cbn [snd].
      rewrite IH by lia. lia.
    + unfold _incrementNonce in Hinc. rewrite checked_add_fits in Hinc by lia.
      discriminate Hinc.
  - destruct (_incrementNonce who s) as [[s' events]|f] eqn:Hinc; cbn [snd].
    + apply _incrementNonce_Ok in Hinc as (_ & Hother & _).
      rewrite IH by (rewrite Hother by congruence; exact Hfits).
      rewrite Hother by congruence. reflexivity.
    + apply IH. exact Hfits.
Qed.

(** X5: an intent of any of the three classes whose nonce is below the
    stored nonce of its signer never verifies again, after any run of
    operations and at any time: it fails with NonceMismatch while its
    deadline holds and with DeadlineExpired afterwards. *)
Theorem stale_intent_never_verifies (s : State) (ops : list (uint256 * Op)) (t : uint256)
    (i : Intent) (signature : bytes) :
  intent_nonce i < getNonce s (intent_signer i) ->
  verify (run ops s) t i signature =
  Err (if t <=? intent_deadline i then NonceMismatch else DeadlineExpired).
Proof.
  unfold getNonce. intros Hstale. rewrite verify_guards.
  pose proof (run_nonce_monotone ops s (intent_signer i)) as Hmono.
  destruct (t <=? intent_deadline i); [|reflexivity].
  destruct (Z.eqb_spec (intent_nonce i) (nonce_of (run ops s) (intent_signer i)));
    [lia|reflexivity].
Qed.

(** X6: incrementing the nonce of one user changes the outcome of no
    verification for an intent of another signer. *)
Theorem increment_leaves_other_signers (user : address) (s s' : State) (events : list Event)
    (t : uint256) (i : Intent) (signature : bytes) :
  _incrementNonce user s = Ok (s', events) ->
  intent_signer i <> user ->
  verify s' t i signature = verify s t i signature.
Proof.
  intros Hinc Hother. apply _incrementNonce_Ok in Hinc as (_ & Hframe & _).
  rewrite !verify_guards, (Hframe _ Hother). reflexivity.
Qed.

(** X7: a verification depends on the block's time only through the
    deadline: at any two times up to the deadline it gives the same outcome
    on the same storage, so an authorization that verifies keeps verifying
    until its deadline passes or its signer's nonce moves. *)
Theorem verify_same_until_deadline (s : State) (t t' : uint256) (i : Intent)
    (signature : bytes) :
  t <= intent_deadline i -> t' <= intent_deadline i ->
  verify s t i signature = verify s t' i signature.
Proof.
  intros Ht Ht'. rewrite !verify_guards.
  apply Z.leb_le in Ht, Ht'. rewrite Ht, Ht'. reflexivity.
Qed.

End EIP712PaymentMore.

(** ** The struct encodings *)

Section EncodingsMore.
Context {prim : Primitives}.
Import EIP712Payment.

Lemma length_abi_encode (ws : list Z) : length (abi_encode ws) = (32 * length ws)%nat.
Proof.
  induction ws as [|w ws IH]; [reflexivity|].
  rewrite abi_encode_cons, length_app, length_be_bytes, IH. cbn [length]. lia.
Qed.

(** [abi.encode] of words in range loses nothing. *)
Lemma abi_encode_inj (ws ws' : list Z) :
  Forall is_word ws -> Forall is_word ws' ->
  abi_encode ws = abi_encode ws' -> ws = ws'.
Proof.
  intros Hws. revert ws'. induction Hws as [|w ws Hw _ IH]; intros ws' Hws' Heq.
  - destruct ws' as [|w' ws']; [reflexivity|].
    apply (f_equal length) in Heq. rewrite !length_abi_encode in Heq. cbn in Heq. lia.
  - destruct Hws' as [|w' ws' Hw' Hws'].
    + apply (f_equal length) in Heq. rewrite !length_abi_encode in Heq. cbn in Heq. lia.
    + rewrite !abi_encode_cons in Heq.
      apply app_inj_1 in Heq as [Hhead Htail]; [|rewrite !length_be_bytes; reflexivity].
      f_equal; [apply word_inj; assumption|apply IH; assumption].
Qed.

Lemma Z_of_bool_inj (b b' : bool) : Z_of_bool b = Z_of_bool b' -> b = b'.
Proof. destruct b, b'; cbn; congruence. Qed.

Lemma is_word_keccak256 (bs : bytes) : is_word (keccak256 bs).
Proof. apply keccak256_range. Qed.

Lemma is_word_Z_of_bool (b : bool) : is_word (Z_of_bool b).
Proof. destruct b; unfold is_word; cbn; lia. Qed.

(** X8: the byte strings hashed into the three struct hashes determine
    every field of the authorization: two payment authorizations, two
    subscription authorizations or two recurring payments with values in
    range have the same encoding only when all their fields agree (for the
    action string of a payment authorization, when the hashes of the two
    strings agree). *)
Theorem struct_encodings_bind_fields :
  (forall payer token amount deadline nonce action payer' token' amount' deadline' nonce'
          action',
     Forall is_word [payer; token; amount; deadline; nonce] ->
     Forall is_word [payer'; token'; amount'; deadline'; nonce'] ->
     paymentAuthorizationEncoding payer token amount deadline nonce action =
     paymentAuthorizationEncoding payer' token' amount' deadline' nonce' action' ->
     [payer; token; amount; deadline; nonce] = [payer'; token'; amount'; deadline'; nonce'] /\
     keccak256 (bytes_of_string action) = keccak256 (bytes_of_string action')) /\
  (forall planId subscriber amount deadline nonce autoRenew planId' subscriber' amount'
          deadline' nonce' autoRenew',
     Forall is_word [planId; subscriber; amount; deadline; nonce] ->
     Forall is_word [planId'; subscriber'; amount'; deadline'; nonce'] ->
     subscriptionAuthorizationEncoding planId subscriber amount deadline nonce autoRenew =
     subscriptionAuthorizationEncoding planId' subscriber' amount' deadline' nonce' autoRenew' ->
     [planId; subscriber; amount; deadline; nonce] =
     [planId'; subscriber'; amount'; deadline'; nonce'] /\
     autoRenew = autoRenew') /\
  (forall planId subscriber amount paymentNumber deadline nonce planId' subscriber' amount'
          paymentNumber' deadline' nonce',
     Forall is_word [planId; subscriber; amount; paymentNumber; deadline; nonce] ->
     Forall is_word [planId'; subscriber'; amount'; paymentNumber'; deadline'; nonce'] ->
     recurringPaymentEncoding planId subscriber amount paymentNumber deadline nonce =
     recurringPaymentEncoding planId' subscriber' amount' paymentNumber' deadline' nonce' ->
     [planId; subscriber; amount; paymentNumber; deadline; nonce] =
     [planId'; subscriber'; amount'; paymentNumber'; deadline'; nonce']).
Proof.
  split; [|split].
  - intros payer token amount deadline nonce action payer' token' amount' deadline' nonce'
      action' Hw Hw' Heq.
    unfold paymentAuthorizationEncoding in Heq. apply abi_encode_inj in Heq.
    + injection Heq as -> -> -> -> -> Haction. split; [reflexivity|exact Haction].
    + constructor; [apply is_word_keccak256|].
      apply Forall_app with (l1 := [payer; token; amount; deadline; nonce])
                            (l2 := [keccak256 (bytes_of_string action)]).
      split; [exact Hw|]. constructor; [apply is_word_keccak256|constructor].
    + constructor; [apply is_word_keccak256|].
      apply Forall_app with (l1 := [payer'; token'; amount'; deadline'; nonce'])
                            (l2 := [keccak256 (bytes_of_string action')]).
      split; [exact Hw'|]. constructor; [apply is_word_keccak256|constructor].
  - intros planId subscriber amount deadline nonce autoRenew planId' subscriber' amount'
      deadline' nonce' autoRenew' Hw Hw' Heq.
    unfold subscriptionAuthorizationEncoding in Heq. apply abi_encode_inj in Heq.
    + injection Heq as -> -> -> -> -> Hb. split; [reflexivity|].
      apply Z_of_bool_inj. exact Hb.
    + constructor; [apply is_word_keccak256|].
      apply Forall_app with (l1 := [planId; subscriber; amount; deadline; nonce])
                            (l2 := [Z_of_bool autoRenew]).
      split; [exact Hw|]. constructor; [apply is_word_Z_of_bool|constructor].
    + constructor; [apply is_word_keccak256|].
      apply Forall_app with (l1 := [planId'; subscriber'; amount'; deadline'; nonce'])
                            (l2 := [Z_of_bool autoRenew']).
      split; [exact Hw'|]. constructor; [apply is_word_Z_of_bool|constructor].
  - intros planId subscriber amount paymentNumber deadline nonce planId' subscriber' amount'
      paymentNumber' deadline' nonce' Hw Hw' Heq.
    unfold recurringPaymentEncoding in Heq. apply abi_encode_inj in Heq.
    + injection Heq as -> -> -> -> -> ->. reflexivity.
    + constructor; [apply is_word_keccak256|exact Hw].
    + constructor; [apply is_word_keccak256|exact Hw'].
Qed.

End EncodingsMore.

(** ** SubscriptionManager: what every history keeps *)

Section SubscriptionManagerMore.
Context {prim : Primitives}.
Import SubscriptionManager.

(** A relation between the storage before and after that is reflexive and
    transitive, that [createPlan] establishes and that the writes of
    [subscribe] extend, holds across every transaction, whatever calls the
    recipients of its payments make back. *)
Lemma exec_relates (R : State -> State -> Prop) :
  (forall s, R s s) ->
  (forall s1 s2 s3, R s1 s2 -> R s2 s3 -> R s1 s3) ->
  (forall t msg_sender token amount interval duration gracePeriod apiUrl s planId s' log,
     createPlan t msg_sender token amount interval duration gracePeriod apiUrl s
       = Ok (planId, s', log) -> R s s') ->
  (forall call_value t msg_sender msg_value planId autoRenew s s' log,
     subscribe call_value t msg_sender msg_value planId autoRenew s = Ok (s', log) ->
     R s (storage_at_write call_value planId s) -> R s s') ->
  forall tx t s s' log, exec t tx s = Ok (s', log) -> R s s'.
Proof.
  intros Hrefl Htrans Hcreate Hsubscribe.
  apply (Tx_nested_ind
           (fun tx => forall t s s' log, exec t tx s = Ok (s', log) -> R s s')
           (fun c => forall t s s' log, callee t c s = Some (s', log) -> R s s')).
  - intros msg_sender token amount interval duration gracePeriod apiUrl t s s' log H.
    cbn [exec] in H.
    destruct (createPlan t msg_sender token amount interval duration gracePeriod apiUrl s)
      as [[[planId s1] log1]|] eqn:Hc; [|discriminate].
    cbn [bind fst snd] in H. inversion H; subst. eapply Hcreate; eassumption.
  - intros msg_sender msg_value planId autoRenew recipient IH t s s' log H.
    cbn [exec] in H. eapply Hsubscribe; [exact H|].
    unfold storage_at_write. destruct (_ =? address0); [|apply Hrefl].
    destruct (callee t recipient s) as [[s1 log1]|] eqn:Hcallee; [|apply Hrefl].
    eapply IH; eassumption.
  - intros t s s' log H. discriminate H.
  - intros reentrant Hall t s s' log H. rewrite callee_Accepts in H.
    revert s s' log H. induction Hall as [|tx txs Htx _ IH]; intros s s' log H.
    + cbn in H. inversion H; subst. apply Hrefl.
    + cbn [reentrant_calls] in H.
      destruct (exec t tx s) as [[s1 log1]|] eqn:Hexec.
      * destruct (reentrant_calls t txs s1) as [s2 log2] eqn:Hrest.
        cbn [fst snd] in H. inversion H; subst.
        eapply Htrans; [eapply Htx; eassumption|].
        eapply IH. rewrite Hrest. reflexivity.
      * eapply IH; eassumption.
Qed.

Lemma run_relates (R : State -> State -> Prop) :
  (forall s, R s s) ->
  (forall s1 s2 s3, R s1 s2 -> R s2 s3 -> R s1 s3) ->
  (forall tx t s s' log, exec t tx s = Ok (s', log) -> R s s') ->
  forall history s, R s (run history s).
Proof.
  intros Hrefl Htrans Hexec history.
  induction history as [|[t tx] history IH]; intros s; [apply Hrefl|].
  cbn [run]. unfold after. destruct (exec t tx s) as [[s' log]|] eqn:H; [|apply IH].
  eapply Htrans; [eapply Hexec; exact H|apply IH].
Qed.

Lemma extends_refl (s : State) : extends s s.
Proof.
  split; [tauto|]. split; [exists []; rewrite app_nil_r; reflexivity|].
  split; reflexivity.
Qed.

Lemma extends_trans (s1 s2 s3 : State) : extends s1 s2 -> extends s2 s3 -> extends s1 s3.
Proof.
  intros (Hwf12 & [more12 Hall12] & Hn12 & Hsub12) (Hwf23 & [more23 Hall23] & Hn23 & Hsub23).
  split; [tauto|]. split; [|split].
  - exists (more12 ++ more23). rewrite Hall23, Hall12, app_assoc. reflexivity.
  - congruence.
  - intros planId who Hblocked. rewrite Hsub23; [apply Hsub12; exact Hblocked|].
    unfold blocked in *. rewrite Hsub12 by exact Hblocked. exact Hblocked.
Qed.

(** A plan that is active is stored, and in well-formed storage listed. *)
Lemma active_plan_listed (s : State) (planId : bytes32) :
  wellformed s -> SubscriptionPlan.active (plan_of s planId) = true -> planId ∈ allPlans s.
Proof.
  intros (_ & Hunlisted & _) Hactive.
  destruct (decide (planId ∈ allPlans s)) as [Hin|Hout]; [exact Hin|].
  unfold plan_of in Hactive. rewrite (Hunlisted _ Hout) in Hactive. discriminate Hactive.
Qed.

Lemma createPlan_extends (t : uint256) (msg_sender token : address)
    (amount interval duration gracePeriod : uint256) (apiUrl : string)
    (s s' : State) (planId : bytes32) (log : list Log) :
  createPlan t msg_sender token amount interval duration gracePeriod apiUrl s
    = Ok (planId, s', log) -> extends s s'.
Proof.
  intros H. apply createPlan_Ok_inv in H as (Hamount & Hinterval & _ & _ & -> & _).
  split; [|split; [|split]].
  - intros (Hlisted & Hunlisted & Hsubs & Hcount). split; [|split; [|split]].
    + intros id Hin. unfold plan_of. cbn [plans allPlans] in *.
      rewrite lookup_insert. destruct (decide (planId = id)) as [->|Hne].
      * cbn. repeat split; assumption.
      * apply Hlisted. apply elem_of_app in Hin as [Hin|Hin]; [exact Hin|].
        apply list_elem_of_singleton in Hin. congruence.
    + intros id Hout. cbn [plans allPlans] in *.
      rewrite lookup_insert_ne.
      * apply Hunlisted. intros Hin. apply Hout. apply elem_of_app. left. exact Hin.
      * intros ->. apply Hout. apply elem_of_app. right. apply list_elem_of_singleton.
        reflexivity.
    + exact Hsubs.
    + cbn [planCounter allPlans]. rewrite length_app. cbn [length]. lia.
  - exists [planId]. reflexivity.
  - reflexivity.
  - intros id who _. reflexivity.
Qed.

Lemma subscribe_extends
    (call_value : address -> uint256 -> State -> option (State * list Log))
    (t : uint256) (msg_sender : address) (msg_value : uint256) (planId : bytes32)
    (autoRenew : bool) (s s' : State) (log : list Log) :
  subscribe call_value t msg_sender msg_value planId autoRenew s = Ok (s', log) ->
  extends s (storage_at_write call_value planId s) -> extends s s'.
Proof.
  intros H (Hwf & [more Hall] & Hnonces & Hsame).
  pose proof (subscribe_Ok_inv _ _ _ _ _ _ _ _ _ H) as (Hactive & Hfree & _).
  cbv zeta in Hactive, Hfree.
  apply subscribe_Ok_state in H. cbv zeta in H.
  set (s1 := storage_at_write call_value planId s) in *.
  split; [|split; [|split]].
  - intros Hs. pose proof (Hwf Hs) as (Hlisted & Hunlisted & Hsubs & Hcount).
    assert (planId ∈ allPlans s) as Hin by (apply active_plan_listed; assumption).
    assert (planId ∈ allPlans s1) as Hin1
      by (rewrite Hall; apply elem_of_app; left; exact Hin).
    subst s'. split; [|split; [|split]].
    + intros id Hid. rewrite plan_of_set_plan, plan_of_set_subscription.
      destruct (decide (planId = id)) as [->|Hne]; [|apply Hlisted; exact Hid].
      destruct (Hlisted _ Hid) as (Ha & Hb & Hc & Hd). repeat split; assumption.
    + intros id Hid. cbn [plans set_plan set_subscription allPlans] in *.
      rewrite lookup_insert_ne; [apply Hunlisted; exact Hid|]. intros ->. contradiction.
    + intros id who Hblocked. unfold blocked in Hblocked.
      rewrite subscription_of_set_plan, subscription_of_set_subscription in *.
      destruct (decide ((planId, msg_sender) = (id, who))) as [Heq|Hne].
      * inversion Heq; subst id who.
        destruct Hs as (Hlisted0 & _). destruct (Hlisted0 _ Hin) as (_ & Hamount & Hint & _).
        unfold subscription_ok, new_subscription. cbn. repeat split; lia.
      * apply Hsubs. exact Hblocked.
    + exact Hcount.
  - exists more. subst s'. exact Hall.
  - subst s'. exact Hnonces.
  - intros id who Hblocked. subst s'.
    rewrite subscription_of_set_plan, subscription_of_set_subscription.
    destruct (decide ((planId, msg_sender) = (id, who))) as [Heq|Hne].
    + inversion Heq; subst id who. unfold blocked in Hblocked. contradiction.
    + apply Hsame. exact Hblocked.
Qed.

Lemma exec_extends (tx : Tx) (t : uint256) (s s' : State) (log : list Log) :
  exec t tx s = Ok (s', log) -> extends s s'.
Proof.
  revert tx t s s' log. apply (exec_relates extends).
  - apply extends_refl.
  - apply extends_trans.
  - intros. eapply createPlan_extends. eassumption.
  - intros. eapply subscribe_extends; eassumption.
Qed.

Lemma run_extends (history : list (uint256 * Tx)) (s : State) : extends s (run history s).
Proof.
  apply (run_relates extends);
    [apply extends_refl|apply extends_trans|apply exec_extends].
Qed.

Lemma wellformed_init : wellformed init.
Proof.
  split; [|split; [|split]].
  - intros planId Hin. cbn in Hin. apply elem_of_nil in Hin. contradiction.
  - intros planId _. reflexivity.
  - intros planId who Hblocked. unfold blocked, subscription_of in Hblocked.
    cbn in Hblocked. rewrite lookup_empty in Hblocked. cbn in Hblocked. contradiction.
  - reflexivity.
Qed.

Lemma wellformed_reachable (history : list (uint256 * Tx)) : wellformed (run history init).
Proof. apply (run_extends history init). apply wellformed_init. Qed.

(** X9: in every storage reachable from the constructor, each plan listed
    by getAllPlans is active, has a positive amount and a positive interval,
    and is paid to its creator. *)
Theorem listed_plans_are_valid (history : list (uint256 * Tx)) (planId : bytes32) :
  planId ∈ getAllPlans (run history init) ->
  SubscriptionPlan.active (getPlan (run history init) planId) = true /\
  0 < SubscriptionPlan.amount (getPlan (run history init) planId) /\
  0 < SubscriptionPlan.interval (getPlan (run history init) planId) /\
  SubscriptionPlan.paymentRecipient (getPlan (run history init) planId) =
    SubscriptionPlan.creator (getPlan (run history init) planId).
Proof.
  intros Hin. destruct (wellformed_reachable history) as (Hlisted & _).
  exact (Hlisted planId Hin).
Qed.

(** X10: in every storage reachable from the constructor, an identifier
    that getAllPlans does not list has no plan: getPlan returns the all-zero
    plan for it and every subscribe to it fails with PlanInactive, whatever
    is paid. *)
Theorem unknown_plan_is_inactive (history : list (uint256 * Tx)) (planId : bytes32) :
  planId ∉ getAllPlans (run history init) ->
  getPlan (run history init) planId = SubscriptionPlan.zero /\
  forall call_value t msg_sender msg_value autoRenew,
    subscribe call_value t msg_sender msg_value planId autoRenew (run history init)
      = Err PlanInactive.
Proof.
  intros Hout. destruct (wellformed_reachable history) as (_ & Hunlisted & _).
  assert (getPlan (run history init) planId = SubscriptionPlan.zero) as Hzero.
  { unfold getPlan, plan_of. rewrite (Hunlisted planId Hout). reflexivity. }
  split; [exact Hzero|]. intros call_value t msg_sender msg_value autoRenew.
  apply subscribe_inactive. unfold getPlan in Hzero. rewrite Hzero. reflexivity.
Qed.

(** X11: the list of plans only grows, by appending, across any history;
    and from the constructor planCounter is always the number of plans
    listed. *)
Theorem allPlans_append_only (history : list (uint256 * Tx)) (s : State) :
  (exists more, getAllPlans (run history s) = getAllPlans s ++ more) /\
  planCounter (run history init) = Z.of_nat (length (getAllPlans (run history init))).
Proof.
  split.
  - destruct (run_extends history s) as (_ & Hmore & _). exact Hmore.
  - destruct (wellformed_reachable history) as (_ & _ & _ & Hcount). exact Hcount.
Qed.

(** X12: in every storage reachable from the constructor, a record with a
    subscriber is stored under that subscriber's own address, is active, has
    no missed payment, has its next payment due after its start and a
    positive total paid. *)
Theorem stored_subscriptions_are_valid (history : list (uint256 * Tx)) (planId : bytes32)
    (who : address) :
  Subscription.subscriber (getSubscription (run history init) planId who) <> address0 ->
  Subscription.subscriber (getSubscription (run history init) planId who) = who /\
  Subscription.active (getSubscription (run history init) planId who) = true /\
  Subscription.missedPayments (getSubscription (run history init) planId who) = 0 /\
  Subscription.startTime (getSubscription (run history init) planId who) <
    Subscription.nextPaymentDue (getSubscription (run history init) planId who) /\
  0 < Subscription.totalPaid (getSubscription (run history init) planId who).
Proof.
  intros Hblocked. destruct (wellformed_reachable history) as (_ & _ & Hsubs & _).
  exact (Hsubs planId who Hblocked).
Qed.

(** X13: no transaction writes the contract's own nonces mapping: getNonce
    returns after any history what it returned before, and zero for every
    user in every storage reachable from the constructor. *)
Theorem manager_nonces_never_move (history : list (uint256 * Tx)) (s : State)
    (user : address) :
  getNonce (run history s) user = getNonce s user /\
  getNonce (run history init) user = 0.
Proof.
  assert (forall s0, getNonce (run history s0) user = getNonce s0 user) as Hsame.
  { intros s0. destruct (run_extends history s0) as (_ & _ & Hnonces & _).
    unfold getNonce. rewrite Hnonces. reflexivity. }
  split; [apply Hsame|]. rewrite Hsame. reflexivity.
Qed.


(** X15: no transaction deactivates a plan: a plan that is active stays
    active after any history, so it keeps admitting new subscribers. *)
Theorem active_plan_stays_active (history : list (uint256 * Tx)) (s : State)
    (planId : bytes32) :
  SubscriptionPlan.active (getPlan s planId) = true ->
  SubscriptionPlan.active (getPlan (run history s) planId) = true.
Proof.
  unfold getPlan. intros Hactive.
  apply (run_preserves (fun s0 => SubscriptionPlan.active (plan_of s0 planId) = true));
    [apply exec_keeps_active|exact Hactive].
Qed.

(** X16: subscribe succeeds exactly when the plan is active, the caller has
    no record for it, for a plan paid in the native token the value covers
    the amount and the recipient accepts it, and neither the two dates nor
    the subscriber counter overflow; when the recipient of a native payment
    does not accept, it fails with the reason Payment failed. *)
Theorem subscribe_succeeds_exactly_when
    (call_value : address -> uint256 -> State -> option (State * list Log))
    (t : uint256) (msg_sender : address) (msg_value : uint256) (planId : bytes32)
    (autoRenew : bool) (s : State) :
  ((exists s' log, subscribe call_value t msg_sender msg_value planId autoRenew s = Ok (s', log))
   <->
   SubscriptionPlan.active (plan_of s planId) = true /\
   Subscription.subscriber (subscription_of s planId msg_sender) = address0 /\
   (SubscriptionPlan.token (plan_of s planId) = address0 ->
    SubscriptionPlan.amount (plan_of s planId) <= msg_value /\
    exists left,
      call_value (SubscriptionPlan.paymentRecipient (plan_of s planId))
        (SubscriptionPlan.amount (plan_of s planId)) s = Some left) /\
   t + SubscriptionPlan.interval (plan_of s planId) <= MAX_UINT256 /\
   t + SubscriptionPlan.duration (plan_of s planId) <= MAX_UINT256 /\
   SubscriptionPlan.totalSubscribers (plan_of (storage_at_write call_value planId s) planId) + 1
     <= MAX_UINT256) /\
  (SubscriptionPlan.active (plan_of s planId) = true ->
   Subscription.subscriber (subscription_of s planId msg_sender) = address0 ->
   SubscriptionPlan.token (plan_of s planId) = address0 ->
   SubscriptionPlan.amount (plan_of s planId) <= msg_value ->
   call_value (SubscriptionPlan.paymentRecipient (plan_of s planId))
     (SubscriptionPlan.amount (plan_of s planId)) s = None ->
   subscribe call_value t msg_sender msg_value planId autoRenew s
     = Err (Revert "Payment failed")).
Proof.
  split; [split|].
  - intros (s' & log & H).
    apply subscribe_Ok_inv in H
      as (Hactive & Hfree & s1 & log1 & Hpaid & Hdue & Hends & Hcount & _ & _).
    cbv zeta in *. split; [exact Hactive|]. split; [exact Hfree|].
    unfold storage_at_write.
    destruct Hpaid as [(Hnative & Hvalue & log0 & Hcall & _)|(Htoken & -> & _)].
    + split; [intros _; split; [exact Hvalue|]; eexists; exact Hcall|].
      rewrite Hnative, Hcall. cbn [Z.eqb address0]. repeat split; assumption.
    + split; [intros Hnative; contradiction|].
      apply Z.eqb_neq in Htoken. rewrite Htoken. repeat split; assumption.
  - intros (Hactive & Hfree & Hnative & Hdue & Hends & Hcount).
    unfold storage_at_write in Hcount. unfold subscribe.
    rewrite Hactive, Hfree. cbn [require bind Z.eqb address0].
    destruct (Z.eqb_spec (SubscriptionPlan.token (plan_of s planId)) address0)
      as [Hzero|Htoken].
    + destruct (Hnative Hzero) as (Hvalue & [s1 log0] & Hcall).
      rewrite Hcall in *. apply Z.leb_le in Hvalue. rewrite Hvalue.
      cbn [require bind fst snd]. rewrite !checked_add_fits by assumption. cbn [bind].
      rewrite plan_of_set_subscription, checked_add_fits by assumption. cbn [bind].
      eexists. eexists. reflexivity.
    + cbn [bind fst snd]. rewrite !checked_add_fits by assumption. cbn [bind].
      rewrite plan_of_set_subscription, checked_add_fits by assumption. cbn [bind].
      eexists. eexists. reflexivity.
  - intros Hactive Hfree Hnative Hvalue Hcall. unfold subscribe.
    rewrite Hactive, Hfree, Hnative. cbn [require bind Z.eqb address0].
    apply Z.leb_le in Hvalue. rewrite Hvalue, Hcall. reflexivity.
Qed.

(** [createPlan] succeeds for a positive amount and interval while the
    counter can grow; the plan it stores and the subscriptions it leaves. *)
Lemma createPlan_Ok (t : uint256) (msg_sender token : address)
    (amount interval duration gracePeriod : uint256) (apiUrl : string) (s : State) :
  0 < amount -> 0 < interval -> planCounter s < MAX_UINT256 ->
  let planId :=
    keccak256 (abi_encodePacked_address_uint256_uint256 msg_sender (planCounter s + 1) t) in
  exists s',
    createPlan t msg_sender token amount interval duration gracePeriod apiUrl s
      = Ok (planId, s', [PlanCreated planId msg_sender token amount]) /\
    plan_of s' planId =
      SubscriptionPlan.mk token amount interval duration gracePeriod true msg_sender
        msg_sender apiUrl 0 /\
    forall id who, subscription_of s' id who = subscription_of s id who.
Proof.
  intros Hamount Hinterval Hcounter planId. eexists. split; [|split].
  - unfold createPlan. apply Z.ltb_lt in Hamount, Hinterval.
    rewrite Hamount, Hinterval. cbn [require bind].
    rewrite checked_add_fits by lia. cbn [bind]. reflexivity.
  - unfold plan_of. cbn [plans]. rewrite lookup_insert_eq. reflexivity.
  - intros id who. reflexivity.
Qed.

(** X17: the scenario of the repository's tests, for any values: after a
    createPlan for the native token, a subscribe by a caller with no record
    for the new plan who sends at least the amount, to a creator who accepts
    it, succeeds; it sends exactly the amount to the creator, and leaves an
    active subscription with totalPaid equal to the plan's amount on a plan
    that is active, keeps its amount and counts one subscriber. *)
Theorem create_then_subscribe (t t' : uint256) (creator subscriber : address)
    (amount interval duration gracePeriod msg_value : uint256) (apiUrl : string)
    (autoRenew : bool) (s : State) :
  0 < amount -> 0 < interval -> planCounter s < MAX_UINT256 ->
  amount <= msg_value ->
  t' + interval <= MAX_UINT256 -> t' + duration <= MAX_UINT256 ->
  let planId :=
    keccak256 (abi_encodePacked_address_uint256_uint256 creator (planCounter s + 1) t) in
  Subscription.subscriber (getSubscription s planId subscriber) = address0 ->
  exists s1 s2,
    createPlan t creator address0 amount interval duration gracePeriod apiUrl s
      = Ok (planId, s1, [PlanCreated planId creator address0 amount]) /\
    exec t' (TxSubscribe subscriber msg_value planId autoRenew (Accepts [])) s1
      = Ok (s2, [ValueSent creator amount; SubscriptionCreated planId subscriber;
                 PaymentProcessed planId subscriber amount]) /\
    Subscription.active (getSubscription s2 planId subscriber) = true /\
    Subscription.totalPaid (getSubscription s2 planId subscriber) = amount /\
    SubscriptionPlan.active (getPlan s2 planId) = true /\
    SubscriptionPlan.amount (getPlan s2 planId) = amount /\
    SubscriptionPlan.totalSubscribers (getPlan s2 planId) = 1.
Proof.
  intros Hamount Hinterval Hcounter Hvalue Hdue Hends planId Hfree.
  destruct (createPlan_Ok t creator address0 amount interval duration gracePeriod apiUrl s
              Hamount Hinterval Hcounter) as (s1 & Hcreate & Hplan & Hsub).
  fold planId in Hcreate, Hplan. specialize (Hsub planId subscriber).
  exists s1. eexists. split; [exact Hcreate|].
  cbn [exec]. unfold subscribe. rewrite Hplan, Hsub.
  unfold getSubscription in Hfree. rewrite Hfree.
  cbn [SubscriptionPlan.active SubscriptionPlan.token SubscriptionPlan.amount
       SubscriptionPlan.interval SubscriptionPlan.duration SubscriptionPlan.paymentRecipient
       require bind Z.eqb address0].
  apply Z.leb_le in Hvalue. rewrite Hvalue. rewrite callee_Accepts.
  cbn [reentrant_calls require bind fst snd].
  rewrite !checked_add_fits by assumption. cbn [bind].
  rewrite plan_of_set_subscription, Hplan.
  cbn [SubscriptionPlan.totalSubscribers].
  rewrite checked_add_fits by (unfold MAX_UINT256; lia). cbn [bind app].
  split; [reflexivity|].
  unfold getSubscription, getPlan.
  rewrite subscription_of_set_plan, subscription_of_set_subscription, plan_of_set_plan.
  destruct (decide ((planId, subscriber) = (planId, subscriber))); [|congruence].
  destruct (decide (planId = planId)); [|congruence].
  cbn. repeat split.
Qed.

End SubscriptionManagerMore.

(** ** The API client *)

Section APIErrorMore.
Import APIError.

(** X18: an APIError is classified in at most one way: a network error
    (status 0), a client error (400 to 499) and a server error (500 and
    above) exclude one another; payment required (402), forbidden (403) and
    not found (404) are client errors and exclude one another. *)
Theorem status_classes_are_disjoint (e : APIError.t) :
  (isNetworkError e = true -> isClientError e = false /\ isServerError e = false) /\
  (isClientError e = true -> isServerError e = false) /\
  (isPaymentRequired e = true ->
   isClientError e = true /\ isForbidden e = false /\ isNotFound e = false) /\
  (isForbidden e = true -> isClientError e = true /\ isNotFound e = false) /\
  (isNotFound e = true -> isClientError e = true).
Proof.
  unfold isNetworkError, isClientError, isServerError, isPaymentRequired, isForbidden,
    isNotFound.
  destruct (Z.eqb_spec (status e) 0), (Z.leb_spec 400 (status e)),
    (Z.ltb_spec (status e) 500), (Z.leb_spec 500 (status e)),
    (Z.eqb_spec (status e) 402), (Z.eqb_spec (status e) 403),
    (Z.eqb_spec (status e) 404); cbn [andb];
    repeat split; intros; try reflexivity; try discriminate; lia.
Qed.

End APIErrorMore.

Section APICacheMore.
Context {value : Type} (null : value).
Import APICache.

Lemma get_set_same (now now' : Z) (key : string) (d : value) (c : t (value := value)) :
  get null now' key (set now key d c) =
  if ttl c <? now' - now then (null, delete key (set now key d c))
  else (d, set now key d c).
Proof.
  unfold get, set. cbn [cache ttl]. rewrite lookup_insert_eq. reflexivity.
Qed.

Lemma get_delete_same (now : Z) (key : string) (c : t (value := value)) :
  get null now key (delete key c) = (null, delete key c).
Proof. unfold get, delete. cbn [cache]. rewrite lookup_delete_eq. reflexivity. Qed.

(** X19: the cache serves an entry for [ttl] milliseconds, the bound
    included, and never longer: a get up to [ttl] after the set returns the
    data and leaves the cache as it is; a later get returns null and deletes
    the entry, which is then missing at every time, an earlier one too,
    until it is set again; and whatever get returns that is not null is the
    data of a stored entry no older than [ttl]. *)
Theorem cache_serves_fresh_entries_only (now now' : Z) (key : string) (d : value)
    (c : t (value := value)) :
  (now' - now <= ttl c ->
   get null now' key (set now key d c) = (d, set now key d c)) /\
  (ttl c < now' - now ->
   fst (get null now' key (set now key d c)) = null /\
   forall now'', get null now'' key (snd (get null now' key (set now key d c)))
                 = (null, snd (get null now' key (set now key d c)))) /\
  (fst (get null now' key c) <> null ->
   exists item, cache c !! key = Some item /\ data item = fst (get null now' key c) /\
                now' - timestamp item <= ttl c).
Proof.
  split; [|split].
  - intros Hfresh. rewrite get_set_same.
    destruct (Z.ltb_spec (ttl c) (now' - now)); [lia|reflexivity].
  - intros Hstale. rewrite get_set_same.
    destruct (Z.ltb_spec (ttl c) (now' - now)); [|lia]. cbn [fst snd].
    split; [reflexivity|]. intros now''. apply get_delete_same.
  - unfold get. destruct (cache c !! key) as [item|]; [|cbn; congruence].
    destruct (Z.ltb_spec (ttl c) (now' - timestamp item)); cbn [fst]; [congruence|].
    intros _. exists item. repeat split. assumption.
Qed.

(** X20: the entries of the cache are independent: setting or deleting one
    key, or a get that evicts it, changes what get returns for no other key;
    delete makes its key miss, and clear makes every key miss. *)
Theorem cache_keys_are_independent (now now' : Z) (key other : string) (d : value)
    (c : t (value := value)) :
  (key <> other ->
   fst (get null now' other (set now key d c)) = fst (get null now' other c) /\
   fst (get null now' other (delete key c)) = fst (get null now' other c) /\
   fst (get null now' other (snd (get null now key c))) = fst (get null now' other c)) /\
  get null now' key (delete key c) = (null, delete key c) /\
  get null now' key (clear c) = (null, clear c).
Proof.
  split; [|split].
  - intros Hne. split; [|split].
    + unfold get, set. cbn [cache ttl]. rewrite lookup_insert_ne by exact Hne. 
      destruct (cache c !! other) as [item|]; [|reflexivity].
      destruct (_ <? _); reflexivity.
    + unfold get, delete. cbn [cache ttl]. rewrite lookup_delete_ne by exact Hne.
      destruct (cache c !! other) as [item|]; [|reflexivity].
      destruct (_ <? _); reflexivity.
    + unfold get at 2. destruct (cache c !! key) as [item|]; [|reflexivity].
      destruct (_ <? _); [|reflexivity]. cbn [snd].
      unfold get, delete. cbn [cache ttl]. rewrite lookup_delete_ne by exact Hne.
      destruct (cache c !! other) as [item'|]; [|reflexivity].
      destruct (_ <? _); reflexivity.
  - apply get_delete_same.
  - unfold get, clear. cbn [cache]. rewrite lookup_empty. reflexivity.
Qed.

End APICacheMore.

Section EnhancedAPIClientMore.
Import EnhancedAPIClient.
Context {value : Type} (null : value) (truthy : value -> bool).
Context (request : Z -> Response (value := value)) (clock : Z -> Z).
Context (client : t (value := value)) (cacheKey : string).

Lemma requests_bounded (cacheable : bool) (remaining : nat) (attempt : Z)
    (lastError : option APIError.t) (c : APICache.t (value := value)) :
  (requests (attempts request clock client cacheKey cacheable remaining attempt lastError c)
   <= remaining)%nat.
Proof.
  revert attempt lastError. induction remaining as [|remaining IH]; intros attempt lastError;
    cbn [attempts]; [cbn; lia|].
  destruct (request attempt) as [v|e]; [cbn; lia|].
  destruct (APIError.isClientError e); cbn [requests]; [lia|].
  specialize (IH (attempt + 1) (Some e)). lia.
Qed.

Lemma uncacheable_leaves_cache (remaining : nat) (attempt : Z)
    (lastError : option APIError.t) (c : APICache.t (value := value)) :
  cache_after (attempts request clock client cacheKey false remaining attempt lastError c) = c.
Proof.
  revert attempt lastError. induction remaining as [|remaining IH]; intros attempt lastError;
    cbn [attempts]; [reflexivity|].
  destruct (request attempt) as [v|e]; [reflexivity|].
  destruct (APIError.isClientError e); cbn [cache_after]; [reflexivity|apply IH].
Qed.

(** The loop up to the first response that ends it, the one of attempt
    [attempt + k]. *)
Lemma attempts_decided (cacheable : bool) (k : nat) :
  forall (remaining : nat) (attempt : Z) (lastError : option APIError.t)
         (c : APICache.t (value := value)) (o : Outcome (value := value))
         (c' : APICache.t (value := value)),
    (k < remaining)%nat ->
    retryAttempts client = attempt + Z.of_nat remaining - 1 ->
    (forall j, attempt <= j < attempt + Z.of_nat k -> retriable (request j)) ->
    decisive cacheable (clock (attempt + Z.of_nat k)) cacheKey c
      (request (attempt + Z.of_nat k)) o c' ->
    attempts request clock client cacheKey cacheable remaining attempt lastError c =
    {| outcome := o; cache_after := c'; requests := S k;
       delays := (fun j => retryDelay client * j) <$> seqZ attempt (Z.of_nat k) |}.
Proof.
  induction k as [|k IH]; intros remaining attempt lastError c o c' Hk Hretry Hfirst Hlast;
    (destruct remaining as [|remaining]; [lia|]); cbn [attempts].
  - rewrite Z.add_0_r in Hlast. unfold decisive in Hlast.
    destruct (request attempt) as [v|e].
    + destruct Hlast as [-> ->]. reflexivity.
    + destruct Hlast as (-> & -> & ->). reflexivity.
  - destruct (Hfirst attempt) as (e & -> & ->); [lia|].
    rewrite (IH remaining (attempt + 1) (Some e) c o c').
    + cbn [outcome cache_after requests delays].
      destruct (Z.ltb_spec attempt (retryAttempts client)) as [_|Hge]; [|lia].
      rewrite (seqZ_cons attempt (Z.of_nat (S k))) by lia.
      replace (Z.pred (Z.of_nat (S k))) with (Z.of_nat k) by lia.
      replace (Z.succ attempt) with (attempt + 1) by lia. reflexivity.
    + lia.
    + lia.
    + intros j Hj. apply Hfirst. lia.
    + replace (attempt + 1 + Z.of_nat k) with (attempt + Z.of_nat (S k)) by lia.
      exact Hlast.
Qed.

(** The loop when no response ends it. *)
Lemma attempts_exhausted (cacheable : bool) (remaining : nat) :
  forall (attempt : Z) (lastError : option APIError.t) (c : APICache.t (value := value)),
    retryAttempts client = attempt + Z.of_nat remaining - 1 ->
    (forall j, attempt <= j < attempt + Z.of_nat remaining -> retriable (request j)) ->
    exists thrown,
      attempts request clock client cacheKey cacheable remaining attempt lastError c =
      {| outcome := Thrown thrown; cache_after := c; requests := remaining;
         delays := (fun j => retryDelay client * j)
                     <$> seqZ attempt (Z.of_nat remaining - 1) |} /\
      (remaining = O -> thrown = lastError) /\
      (remaining <> O ->
       exists e, thrown = Some e /\
                 request (attempt + Z.of_nat remaining - 1) = Failure e).
Proof.
  induction remaining as [|remaining IH]; intros attempt lastError c Hretry Hall;
    cbn [attempts].
  - exists lastError. split; [reflexivity|]. split; [reflexivity|congruence].
  - destruct (Hall attempt) as (e & Hresp & Hclient); [lia|]. rewrite Hresp, Hclient.
    destruct (IH (attempt + 1) (Some e) c) as (thrown & -> & Hnone & Hsome).
    + lia.
    + intros j Hj. apply Hall. lia.
    + exists thrown. cbn [outcome cache_after requests delays]. split; [|split].
      * f_equal. destruct remaining as [|remaining].
        -- destruct (Z.ltb_spec attempt (retryAttempts client)); [lia|]. reflexivity.
        -- destruct (Z.ltb_spec attempt (retryAttempts client)); [|lia].
           rewrite (seqZ_cons attempt (Z.of_nat (S (S remaining)) - 1)) by lia.
           replace (Z.pred (Z.of_nat (S (S remaining)) - 1))
             with (Z.of_nat (S remaining) - 1) by lia.
           replace (Z.succ attempt) with (attempt + 1) by lia. reflexivity.
      * congruence.
      * intros _. destruct remaining as [|remaining].
        -- exists e. rewrite (Hnone eq_refl). split; [reflexivity|].
           replace (attempt + Z.of_nat 1 - 1) with attempt by lia. exact Hresp.
        -- destruct Hsome as (e' & -> & Hlast); [congruence|]. exists e'.
           split; [reflexivity|].
           replace (attempt + Z.of_nat (S (S remaining)) - 1)
             with (attempt + 1 + Z.of_nat (S remaining) - 1) by lia. exact Hlast.
Qed.

(** X21: a GET made with the cache on is answered from the cache, with no
    request to the network and no wait, when the entry of its key is no older
    than [ttl] and its data is truthy. A request that is not a GET, or made
    with the cache off, never reads or writes the cache and makes no more
    than retryAttempts requests. *)
Theorem cached_GET_skips_the_network (now : Z) (method : option string)
    (useCache : bool) :
  (forall item,
     useCache = true -> is_GET method = true ->
     APICache.cache (cache client) !! cacheKey = Some item ->
     now - APICache.timestamp item <= APICache.ttl (cache client) ->
     truthy (APICache.data item) = true ->
     requestWithCache null truthy request clock now client cacheKey method useCache =
     {| outcome := Returned (APICache.data item); cache_after := cache client;
        requests := 0; delays := [] |}) /\
  (useCache && is_GET method = false ->
   cache_after
     (requestWithCache null truthy request clock now client cacheKey method useCache)
   = cache client) /\
  (requests (requestWithCache null truthy request clock now client cacheKey method useCache)
   <= Z.to_nat (retryAttempts client))%nat.
Proof.
  split; [|split].
  - intros item -> Hget Hitem Hfresh Htruthy. unfold requestWithCache.
    rewrite Hget. cbn [andb]. unfold APICache.get. rewrite Hitem.
    destruct (Z.ltb_spec (APICache.ttl (cache client)) (now - APICache.timestamp item));
      [lia|].
    cbn [fst snd]. rewrite Htruthy. reflexivity.
  - intros Hoff. unfold requestWithCache. rewrite Hoff. apply uncacheable_leaves_cache.
  - unfold requestWithCache. destruct (useCache && is_GET method).
    + destruct (truthy _); [cbn; lia|apply requests_bounded].
    + apply requests_bounded.
Qed.

(** X22: when the cache does not answer, the call ends with the first
    attempt, among the retryAttempts allowed, whose response is a success or
    a client error (400 to 499), the earlier ones having failed otherwise:
    it has made that many requests, has waited retryDelay times the attempt
    number after each failed attempt, returns the data of a success, stored
    in the cache when the request is a cached GET, and throws a client error
    as it is, without retrying it and without touching the cache. *)
Theorem first_decisive_attempt_ends_the_call (now : Z) (method : option string)
    (useCache : bool) (k : nat) (o : Outcome (value := value))
    (c' : APICache.t (value := value)) :
  let cacheable := useCache && is_GET method in
  let looked := APICache.get null now cacheKey (cache client) in
  let c := if cacheable then snd looked else cache client in
  (cacheable = true -> truthy (fst looked) = false) ->
  Z.of_nat k < retryAttempts client ->
  (forall j, 1 <= j < 1 + Z.of_nat k -> retriable (request j)) ->
  decisive cacheable (clock (1 + Z.of_nat k)) cacheKey c (request (1 + Z.of_nat k)) o c' ->
  requestWithCache null truthy request clock now client cacheKey method useCache =
  {| outcome := o; cache_after := c'; requests := S k;
     delays := (fun j => retryDelay client * j) <$> seqZ 1 (Z.of_nat k) |}.
Proof.
  intros cacheable looked c Hmiss Hk Hfirst Hlast. unfold requestWithCache.
  fold cacheable. fold looked.
  assert (attempts request clock client cacheKey cacheable
            (Z.to_nat (retryAttempts client)) 1 None c =
          {| outcome := o; cache_after := c'; requests := S k;
             delays := (fun j => retryDelay client * j) <$> seqZ 1 (Z.of_nat k) |}) as Hrun
    by (apply attempts_decided; [lia|lia|exact Hfirst|exact Hlast]).
  subst c. destruct cacheable; [rewrite Hmiss by reflexivity|]; exact Hrun.
Qed.

(** X23: when the cache does not answer and every one of the retryAttempts
    attempts (at least one) fails with an error that is not a client error,
    the call makes exactly retryAttempts requests, waits retryDelay times
    1, 2, ... after all attempts but the last, throws the error of the last
    attempt and leaves the cache as the lookup left it. With no positive
    retryAttempts no request is made and undefined is thrown. *)
Theorem exhausted_retries_throw_the_last_error (now : Z) (method : option string)
    (useCache : bool) :
  let cacheable := useCache && is_GET method in
  let looked := APICache.get null now cacheKey (cache client) in
  let c := if cacheable then snd looked else cache client in
  (cacheable = true -> truthy (fst looked) = false) ->
  (1 <= retryAttempts client ->
   (forall j, 1 <= j <= retryAttempts client -> retriable (request j)) ->
   exists e,
     request (retryAttempts client) = Failure e /\
     requestWithCache null truthy request clock now client cacheKey method useCache =
     {| outcome := Thrown (Some e); cache_after := c;
        requests := Z.to_nat (retryAttempts client);
        delays := (fun j => retryDelay client * j) <$> seqZ 1 (retryAttempts client - 1) |})
  /\
  (retryAttempts client <= 0 ->
   requestWithCache null truthy request clock now client cacheKey method useCache =
   {| outcome := Thrown None; cache_after := c; requests := 0; delays := [] |}).
Proof.
  intros cacheable looked c Hmiss.
  assert (requestWithCache null truthy request clock now client cacheKey method useCache =
          attempts request clock client cacheKey cacheable
            (Z.to_nat (retryAttempts client)) 1 None c) as ->.
  { unfold requestWithCache. fold cacheable. fold looked. subst c.
    destruct cacheable; [rewrite Hmiss by reflexivity|]; reflexivity. }
  split.
  - intros Hpos Hall.
    destruct (attempts_exhausted cacheable (Z.to_nat (retryAttempts client)) 1 None c)
      as (thrown & Hrun & _ & Hsome).
    + lia.
    + intros j Hj. apply Hall. lia.
    + destruct Hsome as (e & -> & Hlast); [lia|]. exists e.
      replace (1 + Z.of_nat (Z.to_nat (retryAttempts client)) - 1)
        with (retryAttempts client) in Hlast by lia.
      split; [exact Hlast|]. rewrite Hrun. f_equal. f_equal. f_equal. lia.
  - intros Hnone. replace (Z.to_nat (retryAttempts client)) with O by lia. reflexivity.
Qed.

End EnhancedAPIClientMore.

Section DataTransformerMore.
Import DataTransformer.

(** X24: formatAddress returns the empty string for an empty address, and
    otherwise the first 6 units of the address, three dots and its last 4
    units; the result never exceeds 13 units and, for an address shorter
    than 10 units, is longer than the address itself. *)
Theorem formatAddress_shape (address : list Z) :
  (address = [] -> formatAddress address = []) /\
  (address <> [] ->
   formatAddress address =
     take 6 address ++ [46; 46; 46] ++ drop (length address - 4) address /\
   length (formatAddress address) =
     (Nat.min 6 (length address) + 3 + Nat.min 4 (length address))%nat) /\
  (length (formatAddress address) <= 13)%nat /\
  (0 < length address < 10 -> length address < length (formatAddress address))%nat.
Proof.
  assert (address <> [] ->
          length (formatAddress address) =
            (Nat.min 6 (length address) + 3 + Nat.min 4 (length address))%nat) as Hlen.
  { intros Hne. destruct address as [|u us]; [congruence|]. unfold formatAddress.
    rewrite !length_app, length_take, length_drop. cbn [length]. lia. }
  split; [intros ->; reflexivity|]. split; [|split].
  - intros Hne. split; [|apply Hlen; exact Hne].
    destruct address; [congruence|reflexivity].
  - destruct address as [|u us]; [cbn; lia|]. rewrite Hlen by congruence. lia.
  - intros Hshort. destruct address as [|u us]; [cbn in Hshort; lia|].
    rewrite Hlen by congruence. lia.
Qed.


End DataTransformerMore.

(** ** Instances on the sample primitives, storage and network *)

Section EIP712PaymentMoreExamples.
Import EIP712Payment Samples.
#[local] Existing Instance sample_primitives.

Lemma nonce_ops_fit :
  getNonce init alice + Z.of_nat (increments_of alice nonce_ops) <= MAX_UINT256.
Proof. vm_compute. discriminate. Qed.

(** Two of the four calls increment [alice]'s nonce. *)
Lemma nonce_counts_increments_witness :
  getNonce (run nonce_ops init) alice =
  getNonce init alice + Z.of_nat (increments_of alice nonce_ops).
Proof. exact (nonce_counts_increments nonce_ops init alice nonce_ops_fit). Defined.

Lemma alice_intent_is_stale :
  intent_nonce alice_intent < getNonce alice_admitted (intent_signer alice_intent).
Proof. vm_compute. reflexivity. Qed.

(** [alice]'s authorization with nonce 0, once her nonce is 1. *)
Lemma stale_intent_never_verifies_witness :
  verify (run nonce_ops alice_admitted) T0 alice_intent alice_signature =
  Err (if T0 <=? intent_deadline alice_intent then NonceMismatch else DeadlineExpired).
Proof.
  exact (stale_intent_never_verifies alice_admitted nonce_ops T0 alice_intent alice_signature
           alice_intent_is_stale).
Defined.

Lemma bob_is_admitted :
  _incrementNonce bob init = Ok (bob_admitted, [NonceIncremented bob 1]).
Proof. vm_compute. reflexivity. Qed.

Lemma alice_is_not_bob : intent_signer alice_intent <> bob.
Proof. vm_compute. discriminate. Qed.

(** Incrementing [bob]'s nonce leaves [alice]'s authorization as it was. *)
Lemma increment_leaves_other_signers_witness :
  verify bob_admitted T0 alice_intent alice_signature =
  verify init T0 alice_intent alice_signature.
Proof.
  exact (increment_leaves_other_signers bob init bob_admitted [NonceIncremented bob 1] T0
           alice_intent alice_signature bob_is_admitted alice_is_not_bob).
Defined.

Lemma day_before_deadline : T0 - day <= intent_deadline alice_intent.
Proof. vm_compute. discriminate. Qed.

Lemma at_deadline : T0 <= intent_deadline alice_intent.
Proof. vm_compute. discriminate. Qed.

(** A day before its deadline and at its deadline. *)
Lemma verify_same_until_deadline_witness :
  verify init (T0 - day) alice_intent alice_signature =
  verify init T0 alice_intent alice_signature.
Proof.
  exact (verify_same_until_deadline init (T0 - day) T0 alice_intent alice_signature
           day_before_deadline at_deadline).
Defined.

End EIP712PaymentMoreExamples.

Section SubscriptionManagerMoreExamples.
Import SubscriptionManager Samples.
#[local] Existing Instance sample_primitives.

Lemma sample_history_plans : getAllPlans (run sample_history init) = [native_id; token_id].
Proof. vm_compute. reflexivity. Qed.

Lemma native_id_is_listed : native_id ∈ getAllPlans (run sample_history init).
Proof. rewrite sample_history_plans. apply list_elem_of_here. Qed.

Lemma listed_plans_are_valid_witness :
  SubscriptionPlan.active (getPlan (run sample_history init) native_id) = true /\
  0 < SubscriptionPlan.amount (getPlan (run sample_history init) native_id) /\
  0 < SubscriptionPlan.interval (getPlan (run sample_history init) native_id) /\
  SubscriptionPlan.paymentRecipient (getPlan (run sample_history init) native_id) =
    SubscriptionPlan.creator (getPlan (run sample_history init) native_id).
Proof. exact (listed_plans_are_valid sample_history native_id native_id_is_listed). Defined.

Lemma seven_is_not_listed : 7 ∉ getAllPlans (run sample_history init).
Proof.
  rewrite sample_history_plans. intros H. apply list_elem_of_In in H. revert H.
  vm_compute. intros [H|[H|[]]]; discriminate H.
Qed.

Lemma unknown_plan_is_inactive_witness :
  getPlan (run sample_history init) 7 = SubscriptionPlan.zero /\
  forall call_value t msg_sender msg_value autoRenew,
    subscribe call_value t msg_sender msg_value 7 autoRenew (run sample_history init)
      = Err PlanInactive.
Proof. exact (unknown_plan_is_inactive sample_history 7 seven_is_not_listed). Defined.

Lemma bob_is_stored :
  Subscription.subscriber (getSubscription (run sample_history init) native_id bob)
    <> address0.
Proof. vm_compute. discriminate. Qed.

Lemma stored_subscriptions_are_valid_witness :
  Subscription.subscriber (getSubscription (run sample_history init) native_id bob) = bob /\
  Subscription.active (getSubscription (run sample_history init) native_id bob) = true /\
  Subscription.missedPayments (getSubscription (run sample_history init) native_id bob) = 0 /\
  Subscription.startTime (getSubscription (run sample_history init) native_id bob) <
    Subscription.nextPaymentDue (getSubscription (run sample_history init) native_id bob) /\
  0 < Subscription.totalPaid (getSubscription (run sample_history init) native_id bob).
Proof.
  exact (stored_subscriptions_are_valid sample_history native_id bob bob_is_stored).
Defined.



Lemma native_plan_active : SubscriptionPlan.active (getPlan two_plans native_id) = true.
Proof. vm_compute. reflexivity. Qed.

Lemma active_plan_stays_active_witness :
  SubscriptionPlan.active (getPlan (run later_history two_plans) native_id) = true.
Proof.
  exact (active_plan_stays_active later_history two_plans native_id native_plan_active).
Defined.

Lemma sample_amounts :
  0 < 100 /\ 0 < 30 * day /\ planCounter init < MAX_UINT256 /\ 100 <= 100 /\
  T0 + day + 30 * day <= MAX_UINT256 /\ T0 + day + 365 * day <= MAX_UINT256.
Proof. vm_compute. repeat split; discriminate. Qed.

Lemma bob_is_new_to_the_first_plan :
  Subscription.subscriber
    (getSubscription init
       (keccak256 (abi_encodePacked_address_uint256_uint256 alice (planCounter init + 1) T0))
       bob) = address0.
Proof. vm_compute. reflexivity. Qed.

(** The scenario of the tests on the sample values: [alice] creates the
    plan at [T0] and [bob] subscribes a day later. *)
Lemma create_then_subscribe_witness :
  let planId :=
    keccak256 (abi_encodePacked_address_uint256_uint256 alice (planCounter init + 1) T0) in
  exists s1 s2,
    createPlan T0 alice address0 100 (30 * day) (365 * day) (3 * day)
      "https://api.example.com" init
      = Ok (planId, s1, [PlanCreated planId alice address0 100]) /\
    exec (T0 + day) (TxSubscribe bob 100 planId true (Accepts [])) s1
      = Ok (s2, [ValueSent alice 100; SubscriptionCreated planId bob;
                 PaymentProcessed planId bob 100]) /\
    Subscription.active (getSubscription s2 planId bob) = true /\
    Subscription.totalPaid (getSubscription s2 planId bob) = 100 /\
    SubscriptionPlan.active (getPlan s2 planId) = true /\
    SubscriptionPlan.amount (getPlan s2 planId) = 100 /\
    SubscriptionPlan.totalSubscribers (getPlan s2 planId) = 1.
Proof.
  exact (create_then_subscribe T0 (T0 + day) alice bob 100 (30 * day) (365 * day) (3 * day)
           100 "https://api.example.com" true init
           (proj1 sample_amounts)
           (proj1 (proj2 sample_amounts))
           (proj1 (proj2 (proj2 sample_amounts)))
           (proj1 (proj2 (proj2 (proj2 sample_amounts))))
           (proj1 (proj2 (proj2 (proj2 (proj2 sample_amounts)))))
           (proj2 (proj2 (proj2 (proj2 (proj2 sample_amounts)))))
           bob_is_new_to_the_first_plan).
Defined.

End SubscriptionManagerMoreExamples.

Section EnhancedAPIClientMoreExamples.
Import EnhancedAPIClient Samples.

Lemma plans_are_not_cached :
  true && is_GET None = true ->
  sample_truthy (fst (APICache.get None sample_now plans_key (cache sample_client))) = false.
Proof. intros _. vm_compute. reflexivity. Qed.

Lemma two_retries_allowed : Z.of_nat 2 < retryAttempts sample_client.
Proof. vm_compute. reflexivity. Qed.

Lemma flaky_network_fails_twice (j : Z) :
  1 <= j < 1 + Z.of_nat 2 -> retriable (flaky_network j).
Proof.
  intros Hj. assert (j = 1 \/ j = 2) as [-> | ->] by lia; eexists; split; reflexivity.
Qed.

Lemma flaky_network_answers_third :
  decisive (true && is_GET None) (sample_clock (1 + Z.of_nat 2)) plans_key
    (if true && is_GET None
     then snd (APICache.get None sample_now plans_key (cache sample_client))
     else cache sample_client)
    (flaky_network (1 + Z.of_nat 2))
    (Returned (Some "plans"))
    (APICache.set (sample_clock (1 + Z.of_nat 2)) plans_key (Some "plans")
       (snd (APICache.get None sample_now plans_key (cache sample_client)))).
Proof. split; reflexivity. Qed.

(** The third attempt answers: three requests, waits of one and two
    seconds, and the answer is cached. *)
Lemma first_decisive_attempt_ends_the_call_witness :
  requestWithCache None sample_truthy flaky_network sample_clock sample_now sample_client
    plans_key None true =
  {| outcome := Returned (Some "plans");
     cache_after :=
       APICache.set (sample_clock (1 + Z.of_nat 2)) plans_key (Some "plans")
         (snd (APICache.get None sample_now plans_key (cache sample_client)));
     requests := 3;
     delays := (fun j => retryDelay sample_client * j) <$> seqZ 1 (Z.of_nat 2) |}.
Proof.
  exact (first_decisive_attempt_ends_the_call None sample_truthy flaky_network sample_clock
           sample_client plans_key sample_now None true 2 (Returned (Some "plans"))
           (APICache.set (sample_clock (1 + Z.of_nat 2)) plans_key (Some "plans")
              (snd (APICache.get None sample_now plans_key (cache sample_client))))
           plans_are_not_cached two_retries_allowed flaky_network_fails_twice
           flaky_network_answers_third).
Defined.

Lemma one_attempt_allowed : 1 <= retryAttempts sample_client.
Proof. vm_compute. discriminate. Qed.

Lemma down_network_always_fails (j : Z) :
  1 <= j <= retryAttempts sample_client -> retriable (down_network j).
Proof. intros _. eexists. split; reflexivity. Qed.

(** Three attempts on a server that is down. *)
Lemma exhausted_retries_throw_the_last_error_witness :
  exists e,
    down_network (retryAttempts sample_client) = Failure e /\
    requestWithCache None sample_truthy down_network sample_clock sample_now sample_client
      plans_key None true =
    {| outcome := Thrown (Some e);
       cache_after :=
         if true && is_GET None
         then snd (APICache.get None sample_now plans_key (cache sample_client))
         else cache sample_client;
       requests := Z.to_nat (retryAttempts sample_client);
       delays := (fun j => retryDelay sample_client * j)
                   <$> seqZ 1 (retryAttempts sample_client - 1) |}.
Proof.
  exact (proj1 (exhausted_retries_throw_the_last_error None sample_truthy down_network
                  sample_clock sample_client plans_key sample_now None true
                  plans_are_not_cached)
           one_attempt_allowed down_network_always_fails).
Defined.

End EnhancedAPIClientMoreExamples.
